(** * OpenTLD: the CUDA detector cascade

    A shallow embedding of
    [src/libopentld/tld/detector/cuda/CuDetectorCascade.cpp]: the
    constructor, [init] with its two geometry passes and the offset table,
    [release] and [detect].

    Conventions.
    - C++ [int] values are integers of [Z].  In the geometry passes the
      configurations the theorems quantify over keep every intermediate
      value far below [2^31]; in the offset table, whose products can
      leave the [int] range, the arithmetic wraps around at 32 bits
      ([wrap_int]).
    - [new] of an array of negative length throws: the call ends in
      [Throws].
    - C++ [float] and [double] values are modelled by their meaning: a
      finite value is the rational it denotes, every arithmetic operation
      is the exact operation followed by rounding to nearest, ties to even
      (module [IEEE]).
    - Heap arrays are lists updated by index; a pointer is an [option]
      ([None] is [NULL]).
    - Calls into the collaborating components (variance filter, ensemble
      classifier, nearest-neighbour classifier, clustering, detection
      result, CUDA runtime), whose code is not part of this file, are
      recorded in order in the [calls] log of the cascade. *)

From stdpp Require Import base list.
From Stdlib Require Import ZArith QArith Qabs Qround Qreduction Lia.
From Stdlib Require Floats.SpecFloat.

Open Scope Z_scope.

(* ================================================================== *)
(** * Part I: definitions *)
(* ================================================================== *)

(** ** IEEE 754 binary floating point, by value *)

Module IEEE.

Inductive float : Type :=
| Finite (q : Q)
| Infinity (negative : bool)
| NaN.

(** Nearest integer to [p / q] for [0 < q], ties to even. *)
Definition rne (p q : Z) : Z :=
  let f := p / q in
  let r := p mod q in
  match 2 * r ?= q with
  | Lt => f
  | Gt => f + 1
  | Eq => if Z.even f then f else f + 1
  end.

Section Format.
(** [prec] bits of precision, exponents below [emax]:
    binary32 is [24, 128], binary64 is [53, 1024]. *)
Variables prec emax : Z.

Definition emin : Z := 3 - emax - prec.

(** Exponent of the unit in the last place of [n / d]: [N] is the
    magnitude in units of the smallest subnormal. *)
Definition ulp_exp (n d : Z) : Z :=
  let N := (Z.abs n * 2 ^ (- emin)) / d in
  Z.max (Z.log2 N - (prec - 1)) 0 + emin.

(** Rounding of the fraction [n / d], [0 < d], to the format. *)
Definition round_frac (n d : Z) : float :=
  let e := ulp_exp n d in
  let r := if 0 <=? e
           then inject_Z (rne n (d * 2 ^ e) * 2 ^ e)
           else Qred (rne (n * 2 ^ (- e)) d # Z.to_pos (2 ^ (- e))) in
  if Qle_bool (inject_Z (2 ^ emax)) (Qabs r)
  then Infinity (n <? 0)
  else Finite r.

Definition round (x : Q) : float :=
  round_frac (Qnum x) (Zpos (Qden x)).

Definition is_zero (x : Q) : bool := Qnum x =? 0.
Definition is_neg (x : Q) : bool := Qnum x <? 0.

(** Conversion of an [int]. *)
Definition of_Z (z : Z) : float := round (inject_Z z).

(** Conversion from another (wider) format. *)
Definition of_float (x : float) : float :=
  match x with
  | Finite q => round q
  | _ => x
  end.

Definition mul (x y : float) : float :=
  match x, y with
  | NaN, _ | _, NaN => NaN
  | Finite a, Finite b => round (a * b)
  | Finite a, Infinity s | Infinity s, Finite a =>
      if is_zero a then NaN else Infinity (xorb s (is_neg a))
  | Infinity s, Infinity t => Infinity (xorb s t)
  end.

Definition div (x y : float) : float :=
  match x, y with
  | NaN, _ | _, NaN => NaN
  | Finite a, Finite b =>
      if is_zero b
      then (if is_zero a then NaN else Infinity (is_neg a))
      else round (a / b)
  | Finite _, Infinity _ => Finite 0
  | Infinity s, Finite b => Infinity (xorb s (is_neg b))
  | Infinity _, Infinity _ => NaN
  end.

Definition add (x y : float) : float :=
  match x, y with
  | NaN, _ | _, NaN => NaN
  | Finite a, Finite b => round (a + b)
  | Finite _, Infinity s | Infinity s, Finite _ => Infinity s
  | Infinity s, Infinity t => if Bool.eqb s t then Infinity s else NaN
  end.

(** [pow(x, n)] of the C library for an integer exponent, taken as
    correctly rounded. *)
Definition pow (x : float) (n : Z) : float :=
  match x with
  | Finite a =>
      if is_zero a && (n <? 0) then Infinity false else round (a ^ n)
  | Infinity s =>
      if n =? 0 then Finite 1
      else if n <? 0 then Finite 0
      else Infinity (s && Z.odd n)
  | NaN => if n =? 0 then Finite 1 else NaN
  end.
End Format.

Definition floor (x : float) : float :=
  match x with
  | Finite a => Finite (inject_Z (Qfloor a))
  | _ => x
  end.

Definition ltb (x y : float) : bool :=
  match x, y with
  | NaN, _ | _, NaN => false
  | Finite a, Finite b =>
      match (a ?= b)%Q with Lt => true | _ => false end
  | Finite _, Infinity s => negb s
  | Infinity s, Finite _ => s
  | Infinity s, Infinity t => s && negb t
  end.

(** [std::max(a, b)] is [(a < b) ? b : a]. *)
Definition max (a b : float) : float := if ltb a b then b else a.

Definition INT_MIN : Z := - 2 ^ 31.

(** Conversion to [int]: truncation toward zero.  Out of range (and for
    infinities and NaN) C++ leaves the result undefined; the value here
    is the one the x86 conversion instruction delivers. *)
Definition to_int (x : float) : Z :=
  match x with
  | Finite a =>
      let t := if is_neg a then Qceiling a else Qfloor a in
      if (INT_MIN <=? t) && (t <? 2 ^ 31) then t else INT_MIN
  | _ => INT_MIN
  end.

End IEEE.

(** binary32, the C++ [float]. *)
Module F32.
Definition of_Z := IEEE.of_Z 24 128.
Definition of_double := IEEE.of_float 24 128.
Definition mul := IEEE.mul 24 128.
Definition div := IEEE.div 24 128.
Definition add := IEEE.add 24 128.
End F32.

(** Rounding to binary32 and its quantum. *)
Abbreviation round32 := (IEEE.round_frac 24 128).
Abbreviation ulp32 := (IEEE.ulp_exp 24 128).

(** binary64, the C++ [double]. *)
Module F64.
Definition literal := IEEE.round 53 1024.
Definition pow := IEEE.pow 53 1024.
End F64.

(** Reading of a Standard Library [spec_float] as a rational, to compare
    the operations above with the library's bit-level ones. *)
Definition SF2Q (f : SpecFloat.spec_float) : Q :=
  match f with
  | SpecFloat.S754_finite s m e =>
      let v := if s then Zneg m else Zpos m in
      Qred (if 0 <=? e then inject_Z (v * 2 ^ e) else v # Z.to_pos (2 ^ (- e)))
  | _ => 0
  end.

Definition SF32_of_Z (z : Z) : SpecFloat.spec_float :=
  SpecFloat.binary_normalize 24 128 z 0 false.

(** ** Data model *)

(** Modelled from the spec: the macros [TLD_WINDOW_SIZE] and
    [TLD_WINDOW_OFFSET_SIZE] come from a header that is not at hand; a
    window is a flat record of 5 integers and an offset record a 6-tuple. *)
Definition TLD_WINDOW_SIZE : Z := 5.
Definition TLD_WINDOW_OFFSET_SIZE : Z := 6.

(** The C++ [int]: 32 bits, two's complement.  Signed overflow, undefined
    in C++, wraps around on the x86 targets of the code. *)
Definition wrap_int (z : Z) : Z := (z + 2 ^ 31) mod 2 ^ 32 - 2 ^ 31.
Definition int_add (a b : Z) : Z := wrap_int (a + b).
Definition int_sub (a b : Z) : Z := wrap_int (a - b).
Definition int_mul (a b : Z) : Z := wrap_int (a * b).

(** Modelled from the spec: [sub2idx] (TLDUtil.h) is the flattened
    row-major offset of column [x], row [y] for a row stride,
    [y * widthStep + x].  The macro computes it in [double] and converts
    to [int]: the sum of [int] values is exact whenever it fits an [int],
    and the conversion of a value that does not fit gives [INT_MIN]. *)
Definition sub2idx (x y widthStep : Z) : Z :=
  IEEE.to_int (IEEE.Finite (inject_Z (y * widthStep + x))).

(** Modelled from the spec: [tldCopyBoundaryToArray] (TLDUtil.h) stores
    [x, y, w, h] in the first four slots of the record at [bb]. *)
Definition tldCopyBoundaryToArray (x y w h : Z) (bb : nat) (array : list Z)
  : list Z :=
  <[(bb + 3)%nat := h]>
    (<[(bb + 2)%nat := w]> (<[(bb + 1)%nat := y]> (<[bb := x]> array))).

(** [cv::Size]. *)
Record Size : Type := mkSize { width : Z; height : Z }.

(** Calls into code outside this file, in the order they are made. *)
Inductive Event : Type :=
| DetectionResult_init (numWindows numTrees : Z)
| DetectionResult_reset
| DetectionResult_release
| EnsembleClassifier_init
| EnsembleClassifier_release
| EnsembleClassifier_filter (i : Z)
| NNClassifier_release
| NNClassifier_filter (i : Z)
| Clustering_release
| Clustering_clusterConfidentIndices
| CuVarianceFilter_filter (numInWins : Z) (survivors : list Z)
| createIndexArray_call (numWindows : Z)
| cudaMalloc (ints : Z)
| cudaMemcpy (ints : Z)
| cudaFree.

(** The members of the components that [propagateMembers] assigns. *)
Record CuVarianceFilter : Type := mkCuVarianceFilter {
  vf_windowOffsets : option (list Z);
  vf_windows_d : option (list Z)
}.

Record EnsembleClassifier : Type := mkEnsembleClassifier {
  ec_windowOffsets : option (list Z);
  ec_imgWidthStep : Z;
  ec_numScales : Z;
  ec_scales : option (list Size);
  ec_numFeatures : Z;
  ec_numTrees : Z
}.

Record NNClassifier : Type := mkNNClassifier {
  nn_windows : option (list Z)
}.

Record Clustering : Type := mkClustering {
  cl_windows : option (list Z);
  cl_numWindows : Z
}.

(** The one member of [DetectionResult] this file writes.  The components
    all point to the [detectionResult] of the cascade. *)
Record DetectionResult : Type := mkDetectionResult {
  containsValidData : bool
}.

(** Modelled from the spec: the class declaration (CuDetectorCascade.h) is
    not at hand.  The dimensions, the exponent range, [minSize] and the
    feature and tree counts are [int]s, the shift ratio is a [float], the
    shift mode and [initialised] are flags, the arrays are owned through
    pointers. *)
Record CuDetectorCascade : Type := mkCuDetectorCascade {
  objWidth : Z;
  objHeight : Z;
  useShift : bool;
  imgHeight : Z;
  imgWidth : Z;
  shift : IEEE.float;
  minScale : Z;
  maxScale : Z;
  minSize : Z;
  imgWidthStep : Z;
  numTrees : Z;
  numFeatures : Z;
  initialised : bool;
  windows_d : option (list Z);
  numScales : Z;
  scales : option (list Size);
  numWindows : Z;
  windows : option (list Z);
  windowOffsets : option (list Z);
  varianceFilter : CuVarianceFilter;
  ensembleClassifier : EnsembleClassifier;
  nnClassifier : NNClassifier;
  clustering : Clustering;
  detectionResult : DetectionResult;
  calls : list Event
}.

(** How a call that contains loops, a [new] of a computed length and an
    [assert] ends; [Throws] is [std::bad_array_new_length]. *)
Inductive outcome (A : Type) : Type :=
| Returns (a : A)
| AssertionFailed
| Throws
| OutOfFuel.
Arguments Returns {A} a.
Arguments AssertionFailed {A}.
Arguments Throws {A}.
Arguments OutOfFuel {A}.

(** ** The constructor (lines 37-65) *)

(** Modelled from the spec: the constructor of [DetectionResult] is not at
    hand; the validity flag is false until a detection pass completes. *)
Definition DetectionResult_new : DetectionResult :=
  {| containsValidData := false |}.

(** [raw] is the object before construction: the members the constructor
    does not assign ([numScales], [scales], [numWindows], [windows],
    [windowOffsets]) keep whatever it holds, and its components stand for
    the freshly constructed ones. *)
Definition CuDetectorCascade_new (raw : CuDetectorCascade) : CuDetectorCascade :=
  {| objWidth := -1;
     objHeight := -1;
     useShift := true;
     imgHeight := -1;
     imgWidth := -1;
     shift := F32.of_double (F64.literal (1 # 10));
     minScale := -10;
     maxScale := 10;
     minSize := 25;
     imgWidthStep := -1;
     numTrees := 13;
     numFeatures := 10;
     initialised := false;
     windows_d := None;
     numScales := numScales raw;
     scales := scales raw;
     numWindows := numWindows raw;
     windows := windows raw;
     windowOffsets := windowOffsets raw;
     varianceFilter := varianceFilter raw;
     ensembleClassifier := ensembleClassifier raw;
     nnClassifier := nnClassifier raw;
     clustering := clustering raw;
     detectionResult := DetectionResult_new;
     calls := [] |}.

(** ** [initWindowsAndScales] (lines 167-251) *)

Section Geometry.
Variable this : CuDetectorCascade.

Definition scanAreaX : Z := 1.
Definition scanAreaY : Z := 1.
Definition scanAreaW : Z := imgWidth this - 1.
Definition scanAreaH : Z := imgHeight this - 1.

(** [float scale = pow(1.2, i); int w = (int)objWidth * scale;] *)
Definition scaled_side (side i : Z) : Z :=
  let scale := F32.of_double (F64.pow (F64.literal (12 # 10)) i) in
  IEEE.to_int (F32.mul (F32.of_Z side) scale).

(** [ssw = max<float>(1, w * shift)] under [useShift], else 1. *)
Definition shift_step (side : Z) : Z :=
  if useShift this
  then IEEE.to_int
         (IEEE.max (F32.of_Z 1) (F32.mul (F32.of_Z side) (shift this)))
  else 1.

Definition rejected (w h : Z) : bool :=
  (w <? minSize this) || (h <? minSize this)
  || (w >? scanAreaW) || (h >? scanAreaH).

(** [numWindows += floor((float)(scanAreaW - w + ssw) / ssw)
                   * floor((float)(scanAreaH - h + ssh) / ssh);]
    The division is a [float] division; floor, product and sum are taken
    in single precision as well.  Where every value involved is an integer
    below [2^24], as under [valid_config] below, double precision would
    give the same. *)
Definition count_windows (numWindows w h ssw ssh : Z) : Z :=
  IEEE.to_int
    (F32.add (F32.of_Z numWindows)
       (F32.mul
          (IEEE.floor
             (F32.div (F32.of_Z (scanAreaW - w + ssw)) (F32.of_Z ssw)))
          (IEEE.floor
             (F32.div (F32.of_Z (scanAreaH - h + ssh)) (F32.of_Z ssh))))).

(** Body of the first loop, on [(scales, scaleIndex, numWindows)]. *)
Definition count_step (st : list Size * Z * Z) (i : Z) : list Size * Z * Z :=
  let '(scales, scaleIndex, numWindows) := st in
  let w := scaled_side (objWidth this) i in
  let h := scaled_side (objHeight this) i in
  let ssw := shift_step w in
  let ssh := shift_step h in
  if rejected w h then st
  else (<[Z.to_nat scaleIndex := mkSize w h]> scales,
        scaleIndex + 1,
        count_windows numWindows w h ssw ssh).

(** [scales = new Size[maxScale - minScale + 1]], which throws for a
    negative length, and the first loop:
    [for(int i = minScale; i <= maxScale; i++)]. *)
Definition count_pass : option (list Size * Z * Z) :=
  if maxScale this - minScale this + 1 <? 0 then None
  else
    Some
      (foldl count_step
         (replicate (Z.to_nat (maxScale this - minScale this + 1)) (mkSize 0 0),
          0, 0)
         (seqZ (minScale this) (maxScale this - minScale this + 1))).

(** Body of the innermost loop, on [(windows, windowIndex)].  A write
    past the end of the buffer, undefined in C++, leaves the list as it
    is. *)
Definition write_window (x y w h scaleIndex : Z) (st : list Z * Z)
  : list Z * Z :=
  let '(windows, windowIndex) := st in
  let bb := Z.to_nat (TLD_WINDOW_SIZE * windowIndex) in
  (<[(bb + 4)%nat := scaleIndex]> (tldCopyBoundaryToArray x y w h bb windows),
   windowIndex + 1).

(** [for(int x = scanAreaX; x + w <= scanAreaX + scanAreaW; x += ssw)] *)
Fixpoint gen_columns (fuel : nat) (w h ssw scaleIndex y x : Z)
  (st : list Z * Z) : option (list Z * Z) :=
  if x + w <=? scanAreaX + scanAreaW then
    match fuel with
    | O => None
    | S fuel' =>
        gen_columns fuel' w h ssw scaleIndex y (x + ssw)
          (write_window x y w h scaleIndex st)
    end
  else Some st.

(** [for(int y = scanAreaY; y + h <= scanAreaY + scanAreaH; y += ssh)] *)
Fixpoint gen_rows (fuel fuel_x : nat) (w h ssw ssh scaleIndex y : Z)
  (st : list Z * Z) : option (list Z * Z) :=
  if y + h <=? scanAreaY + scanAreaH then
    match fuel with
    | O => None
    | S fuel' =>
        match gen_columns fuel_x w h ssw scaleIndex y scanAreaX st with
        | Some st' => gen_rows fuel' fuel_x w h ssw ssh scaleIndex (y + ssh) st'
        | None => None
        end
    end
  else Some st.

(** Body of the second loop over the scales. *)
Definition gen_scale (fuel : nat) (scales : list Size) (st : list Z * Z)
  (scaleIndex : Z) : option (list Z * Z) :=
  let sz := default (mkSize 0 0) (scales !! Z.to_nat scaleIndex) in
  let w := width sz in
  let h := height sz in
  let ssw := shift_step w in
  let ssh := shift_step h in
  gen_rows fuel fuel w h ssw ssh scaleIndex scanAreaY st.

Fixpoint gen_scales (fuel : nat) (scales : list Size) (indices : list Z)
  (st : list Z * Z) : option (list Z * Z) :=
  match indices with
  | [] => Some st
  | scaleIndex :: rest =>
      match gen_scale fuel scales st scaleIndex with
      | Some st' => gen_scales fuel scales rest st'
      | None => None
      end
  end.

(** [windows = new int[TLD_WINDOW_SIZE * numWindows]] and the second
    loop; the result is the filled buffer and the final [windowIndex]. *)
Definition generation_pass (fuel : nat) (scales : list Size)
  (numScales numWindows : Z) : option (list Z * Z) :=
  gen_scales fuel scales (seqZ 0 numScales)
    (replicate (Z.to_nat (TLD_WINDOW_SIZE * numWindows)) 0, 0).

Definition initWindowsAndScales (fuel : nat) : outcome CuDetectorCascade :=
  match count_pass with
  | None => Throws
  | Some (scales', numScales', numWindows') =>
  match generation_pass fuel scales' numScales' numWindows' with
  | None => OutOfFuel
  | Some (windows', windowIndex) =>
      if windowIndex =? numWindows' then
        Returns
          {| objWidth := objWidth this;
             objHeight := objHeight this;
             useShift := useShift this;
             imgHeight := imgHeight this;
             imgWidth := imgWidth this;
             shift := shift this;
             minScale := minScale this;
             maxScale := maxScale this;
             minSize := minSize this;
             imgWidthStep := imgWidthStep this;
             numTrees := numTrees this;
             numFeatures := numFeatures this;
             initialised := initialised this;
             windows_d := Some windows';
             numScales := numScales';
             scales := Some scales';
             numWindows := numWindows';
             windows := Some windows';
             windowOffsets := windowOffsets this;
             varianceFilter := varianceFilter this;
             ensembleClassifier := ensembleClassifier this;
             nnClassifier := nnClassifier this;
             clustering := clustering this;
             detectionResult := detectionResult this;
             calls := calls this
                      ++ [cudaMalloc (TLD_WINDOW_SIZE * numWindows');
                          cudaMemcpy (TLD_WINDOW_SIZE * numWindows')] |}
      else AssertionFailed
  end
  end.
End Geometry.

(** ** [initWindowOffsets] (lines 256-275) *)

(** [window[k]] for [window = windows + windowSize * i]. *)
Definition window_field (windows : list Z) (i k : Z) : Z :=
  default 0 (windows !! Z.to_nat (TLD_WINDOW_SIZE * i + k)).

(** Body of the loop, on [(windowOffsets, off)]: six [*off++ = ...]. *)
Definition offsets_step (this : CuDetectorCascade) (windows : list Z)
  (st : list Z * nat) (i : Z) : list Z * nat :=
  let '(out, off) := st in
  let window := window_field windows i in
  let out := <[off := sub2idx (int_sub (window 0) 1) (int_sub (window 1) 1)
                        (imgWidthStep this)]> out in
  let off := S off in
  let out := <[off := sub2idx (int_sub (window 0) 1)
                        (int_sub (int_add (window 1) (window 3)) 1)
                        (imgWidthStep this)]> out in
  let off := S off in
  let out := <[off := sub2idx (int_sub (int_add (window 0) (window 2)) 1)
                        (int_sub (window 1) 1) (imgWidthStep this)]> out in
  let off := S off in
  let out := <[off := sub2idx (int_sub (int_add (window 0) (window 2)) 1)
                        (int_sub (int_add (window 1) (window 3)) 1)
                        (imgWidthStep this)]> out in
  let off := S off in
  let out := <[off := int_mul (int_mul (int_mul (window 4) 2) (numFeatures this))
                        (numTrees this)]> out in
  let off := S off in
  let out := <[off := int_mul (window 2) (window 3)]> out in
  let off := S off in
  (out, off).

Definition offsets_table (this : CuDetectorCascade) : list Z :=
  fst (foldl (offsets_step this (default [] (windows this)))
         (replicate (Z.to_nat (TLD_WINDOW_OFFSET_SIZE * numWindows this)) 0, 0%nat)
         (seqZ 0 (numWindows this))).

Definition initWindowOffsets (this : CuDetectorCascade) : CuDetectorCascade :=
  {| objWidth := objWidth this;
     objHeight := objHeight this;
     useShift := useShift this;
     imgHeight := imgHeight this;
     imgWidth := imgWidth this;
     shift := shift this;
     minScale := minScale this;
     maxScale := maxScale this;
     minSize := minSize this;
     imgWidthStep := imgWidthStep this;
     numTrees := numTrees this;
     numFeatures := numFeatures this;
     initialised := initialised this;
     windows_d := windows_d this;
     numScales := numScales this;
     scales := scales this;
     numWindows := numWindows this;
     windows := windows this;
     windowOffsets := Some (offsets_table this);
     varianceFilter := varianceFilter this;
     ensembleClassifier := ensembleClassifier this;
     nnClassifier := nnClassifier this;
     clustering := clustering this;
     detectionResult := detectionResult this;
     calls := calls this |}.

(** ** [propagateMembers] (lines 96-121) *)

Definition propagateMembers (this : CuDetectorCascade) : CuDetectorCascade :=
  {| objWidth := objWidth this;
     objHeight := objHeight this;
     useShift := useShift this;
     imgHeight := imgHeight this;
     imgWidth := imgWidth this;
     shift := shift this;
     minScale := minScale this;
     maxScale := maxScale this;
     minSize := minSize this;
     imgWidthStep := imgWidthStep this;
     numTrees := numTrees this;
     numFeatures := numFeatures this;
     initialised := initialised this;
     windows_d := windows_d this;
     numScales := numScales this;
     scales := scales this;
     numWindows := numWindows this;
     windows := windows this;
     windowOffsets := windowOffsets this;
     varianceFilter :=
       {| vf_windowOffsets := windowOffsets this;
          vf_windows_d := windows_d this |};
     ensembleClassifier :=
       {| ec_windowOffsets := windowOffsets this;
          ec_imgWidthStep := imgWidthStep this;
          ec_numScales := numScales this;
          ec_scales := scales this;
          ec_numFeatures := numFeatures this;
          ec_numTrees := numTrees this |};
     nnClassifier := {| nn_windows := windows this |};
     clustering :=
       {| cl_windows := windows this; cl_numWindows := numWindows this |};
     detectionResult := detectionResult this;
     calls := calls this
              ++ [DetectionResult_init (numWindows this) (numTrees this)] |}.

(** ** [init] (lines 78-93) *)

(** The condition of the [if] whose body holds only a comment. *)
Definition dimensions_unset (this : CuDetectorCascade) : bool :=
  (imgWidth this =? -1) || (imgHeight this =? -1) || (imgWidthStep this =? -1)
  || (objWidth this =? -1) || (objHeight this =? -1).

Definition mark_initialised (this : CuDetectorCascade) : CuDetectorCascade :=
  {| objWidth := objWidth this;
     objHeight := objHeight this;
     useShift := useShift this;
     imgHeight := imgHeight this;
     imgWidth := imgWidth this;
     shift := shift this;
     minScale := minScale this;
     maxScale := maxScale this;
     minSize := minSize this;
     imgWidthStep := imgWidthStep this;
     numTrees := numTrees this;
     numFeatures := numFeatures this;
     initialised := true;
     windows_d := windows_d this;
     numScales := numScales this;
     scales := scales this;
     numWindows := numWindows this;
     windows := windows this;
     windowOffsets := windowOffsets this;
     varianceFilter := varianceFilter this;
     ensembleClassifier := ensembleClassifier this;
     nnClassifier := nnClassifier this;
     clustering := clustering this;
     detectionResult := detectionResult this;
     calls := calls this ++ [EnsembleClassifier_init] |}.

Definition init (fuel : nat) (this : CuDetectorCascade)
  : outcome CuDetectorCascade :=
  let _ := if dimensions_unset this then tt else tt in
  match initWindowsAndScales this fuel with
  | Returns this1 =>
      Returns (mark_initialised (propagateMembers (initWindowOffsets this1)))
  | AssertionFailed => AssertionFailed
  | Throws => Throws
  | OutOfFuel => OutOfFuel
  end.

(** ** [release] (lines 123-155) *)

Definition release (this : CuDetectorCascade) : CuDetectorCascade :=
  if negb (initialised this) then this
  else
    {| objWidth := -1;
       objHeight := -1;
       useShift := useShift this;
       imgHeight := imgHeight this;
       imgWidth := imgWidth this;
       shift := shift this;
       minScale := minScale this;
       maxScale := maxScale this;
       minSize := minSize this;
       imgWidthStep := imgWidthStep this;
       numTrees := numTrees this;
       numFeatures := numFeatures this;
       initialised := false;
       windows_d := windows_d this;
       numScales := 0;
       scales := None;
       numWindows := 0;
       windows := None;
       windowOffsets := None;
       varianceFilter := varianceFilter this;
       ensembleClassifier := ensembleClassifier this;
       nnClassifier := nnClassifier this;
       clustering := clustering this;
       detectionResult := detectionResult this;
       calls := calls this
                ++ [EnsembleClassifier_release; NNClassifier_release;
                    Clustering_release]
                ++ match windows_d this with
                   | Some _ => [cudaFree]
                   | None => []
                   end
                ++ [DetectionResult_release] |}.

(** ** [detect] (lines 277-375) *)

(** Modelled from the spec: [createIndexArray] is declared [extern]; the
    surviving indices start as the full index range [[0, numWindows)]. *)
Definition createIndexArray (numWindows : Z) : list Z := seqZ 0 numWindows.

Definition with_detection (this : CuDetectorCascade) (valid : bool)
  (made : list Event) : CuDetectorCascade :=
  {| objWidth := objWidth this;
     objHeight := objHeight this;
     useShift := useShift this;
     imgHeight := imgHeight this;
     imgWidth := imgWidth this;
     shift := shift this;
     minScale := minScale this;
     maxScale := maxScale this;
     minSize := minSize this;
     imgWidthStep := imgWidthStep this;
     numTrees := numTrees this;
     numFeatures := numFeatures this;
     initialised := initialised this;
     windows_d := windows_d this;
     numScales := numScales this;
     scales := scales this;
     numWindows := numWindows this;
     windows := windows this;
     windowOffsets := windowOffsets this;
     varianceFilter := varianceFilter this;
     ensembleClassifier := ensembleClassifier this;
     nnClassifier := nnClassifier this;
     clustering := clustering this;
     detectionResult := {| containsValidData := valid |};
     calls := calls this ++ made |}.

Section Detection.
(** [cv::Mat], and the tests of the three stage filters, each a function of
    the members of its component, the frame and its arguments. *)
Variable Mat : Type.
Variable variance_filter : CuVarianceFilter -> Mat -> list Z -> Z -> list Z.
Variable ensemble_filter : EnsembleClassifier -> Mat -> Z -> bool.
Variable nn_filter : NNClassifier -> Mat -> Z -> bool.

Definition detect (this : CuDetectorCascade) (img : Mat) : CuDetectorCascade :=
  if negb (initialised this) then this
  else
    let d_inWinIndices := createIndexArray (numWindows this) in
    let numInWins := numWindows this in
    let survivors :=
      variance_filter (varianceFilter this) img d_inWinIndices numInWins in
    with_detection this true
      [DetectionResult_reset;
       createIndexArray_call (numWindows this);
       CuVarianceFilter_filter numInWins survivors;
       Clustering_clusterConfidentIndices].

(** The windows the variance filter lets through. *)
Definition variance_survivors (this : CuDetectorCascade) (img : Mat) : list Z :=
  variance_filter (varianceFilter this) img
    (createIndexArray (numWindows this)) (numWindows this).

(** The detection pass in the words of the specification: after the
    variance filter, the ensemble test runs on every surviving window,
    then the nearest-neighbour test on those that passed, then
    clustering. *)
Definition runDetectionPass_spec (this : CuDetectorCascade) (img : Mat)
  : CuDetectorCascade :=
  if negb (initialised this) then this
  else
    let survivors1 := variance_survivors this img in
    let survivors2 :=
      filter (fun i => ensemble_filter (ensembleClassifier this) img i = true)
        survivors1 in
    with_detection this true
      ([DetectionResult_reset;
        createIndexArray_call (numWindows this);
        CuVarianceFilter_filter (numWindows this) survivors1]
       ++ map EnsembleClassifier_filter survivors1
       ++ map NNClassifier_filter survivors2
       ++ [Clustering_clusterConfidentIndices]).

(** The events a call of [detect] adds to the log. *)
Definition detect_calls (this : CuDetectorCascade) (img : Mat) : list Event :=
  drop (length (calls this)) (calls (detect this img)).

(** Both per-window stages run on the survivors of the stage before. *)
Definition per_window_stages_run (this : CuDetectorCascade) (img : Mat)
  : Prop :=
  forall i, elem_of i (variance_survivors this img) ->
    elem_of (EnsembleClassifier_filter i) (detect_calls this img)
    /\ (ensemble_filter (ensembleClassifier this) img i = true ->
        elem_of (NNClassifier_filter i) (detect_calls this img)).
End Detection.

(** ** The geometry in closed form *)

(** The exponents the first loop visits, and the size it derives from each. *)
Definition exponents (this : CuDetectorCascade) : list Z :=
  seqZ (minScale this) (maxScale this - minScale this + 1).

Definition candidate (this : CuDetectorCascade) (i : Z) : Size :=
  mkSize (scaled_side (objWidth this) i) (scaled_side (objHeight this) i).

Definition admissible (this : CuDetectorCascade) (sz : Size) : Prop :=
  rejected this (width sz) (height sz) = false.

#[global] Instance admissible_dec (this : CuDetectorCascade) (sz : Size)
  : Decision (admissible this sz) :=
  bool_eq_dec (rejected this (width sz) (height sz)) false.

Definition accepted_among (this : CuDetectorCascade) (exps : list Z) : list Size :=
  filter (admissible this) (map (candidate this) exps).

Definition accepted_scales (this : CuDetectorCascade) : list Size :=
  accepted_among this (exponents this).

(** [floor((area - side + step) / step)], on integers. *)
Definition axis_count (area side step : Z) : Z := (area - side + step) / step.

Definition scale_count (this : CuDetectorCascade) (sz : Size) : Z :=
  axis_count (scanAreaW this) (width sz) (shift_step this (width sz))
  * axis_count (scanAreaH this) (height sz) (shift_step this (height sz)).

Definition sum_counts (this : CuDetectorCascade) (l : list Size) : Z :=
  foldr (fun sz acc => scale_count this sz + acc) 0 l.

(** The sum, over the accepted scales, of the per-scale window counts. *)
Definition counted_windows (this : CuDetectorCascade) : Z :=
  sum_counts this (accepted_scales this).

(** ** Valid configurations *)

Definition shift_ok (this : CuDetectorCascade) : bool :=
  negb (useShift this)
  || match shift this with
     | IEEE.Finite q => Qle_bool q 1
     | _ => false
     end.

(** All five dimensions are set to positive values, the exponent range is
    not empty, the shift ratio is a fraction, and the grid has fewer than
    [2^24] windows, so that the window count, which the code accumulates
    in single precision, is exact. *)
Definition valid_config (this : CuDetectorCascade) : Prop :=
  0 < objWidth this /\ 0 < objHeight this
  /\ 0 < imgWidth this < 2 ^ 24 /\ 0 < imgHeight this < 2 ^ 24
  /\ 0 < imgWidthStep this
  /\ 0 <= minSize this
  /\ minScale this <= maxScale this
  /\ counted_windows this < 2 ^ 24
  /\ shift_ok this = true.

(** Fuel that lets every row and column loop run to its exit test. *)
Definition enough_fuel (this : CuDetectorCascade) (fuel : nat) : Prop :=
  (Z.to_nat (Z.max (imgWidth this) (imgHeight this)) <= fuel)%nat.

(** ** Window records *)

Definition window_x (windows : list Z) (i : Z) : Z := window_field windows i 0.
Definition window_y (windows : list Z) (i : Z) : Z := window_field windows i 1.
Definition window_w (windows : list Z) (i : Z) : Z := window_field windows i 2.
Definition window_h (windows : list Z) (i : Z) : Z := window_field windows i 3.
Definition window_scale (windows : list Z) (i : Z) : Z := window_field windows i 4.

(** The window lies in [[1, imgWidth - 1] x [1, imgHeight - 1]] with its
    far corner [x + w, y + h] included. *)
Definition window_inset (this : CuDetectorCascade) (windows : list Z) (i : Z)
  : Prop :=
  1 <= window_x windows i /\ 1 <= window_y windows i
  /\ window_x windows i + window_w windows i <= imgWidth this - 1
  /\ window_y windows i + window_h windows i <= imgHeight this - 1.

(** The window starts at or after [(1, 1)] and its far corner is at most
    [(imgWidth, imgHeight)]: its last pixel is inside the image. *)
Definition window_inside (this : CuDetectorCascade) (windows : list Z) (i : Z)
  : Prop :=
  1 <= window_x windows i /\ 1 <= window_y windows i
  /\ window_x windows i + window_w windows i <= imgWidth this
  /\ window_y windows i + window_h windows i <= imgHeight this.

(** Field [k] of offset record [i]. *)
Definition offset_field (offsets : list Z) (i k : Z) : option Z :=
  offsets !! Z.to_nat (TLD_WINDOW_OFFSET_SIZE * i + k).

(** ** Concrete cascades *)

(** Zeroed storage for an object about to be constructed. *)
Definition blank : CuDetectorCascade :=
  {| objWidth := 0; objHeight := 0; useShift := false; imgHeight := 0;
     imgWidth := 0; shift := IEEE.Finite 0; minScale := 0; maxScale := 0;
     minSize := 0; imgWidthStep := 0; numTrees := 0; numFeatures := 0;
     initialised := false; windows_d := None; numScales := 0; scales := None;
     numWindows := 0; windows := None; windowOffsets := None;
     varianceFilter := mkCuVarianceFilter None None;
     ensembleClassifier := mkEnsembleClassifier None 0 0 None 0 0;
     nnClassifier := mkNNClassifier None;
     clustering := mkClustering None 0;
     detectionResult := mkDetectionResult false;
     calls := [] |}.

(** What a caller does between construction and [init]: assign the public
    dimension members and, if wanted, the exponent range. *)
Definition configure (objW objH imgW imgH imgStep minS maxS : Z)
  (this : CuDetectorCascade) : CuDetectorCascade :=
  {| objWidth := objW;
     objHeight := objH;
     useShift := useShift this;
     imgHeight := imgH;
     imgWidth := imgW;
     shift := shift this;
     minScale := minS;
     maxScale := maxS;
     minSize := minSize this;
     imgWidthStep := imgStep;
     numTrees := numTrees this;
     numFeatures := numFeatures this;
     initialised := initialised this;
     windows_d := windows_d this;
     numScales := numScales this;
     scales := scales this;
     numWindows := numWindows this;
     windows := windows this;
     windowOffsets := windowOffsets this;
     varianceFilter := varianceFilter this;
     ensembleClassifier := ensembleClassifier this;
     nnClassifier := nnClassifier this;
     clustering := clustering this;
     detectionResult := detectionResult this;
     calls := calls this |}.

Definition fresh : CuDetectorCascade := CuDetectorCascade_new blank.

(** Template 24x24, image 100x100 with stride 100, exponents [-1, 1]. *)
Definition template24_image100 : CuDetectorCascade :=
  configure 24 24 100 100 100 (-1) 1 fresh.

(** Template 25x25, image 30x30 with stride 30, default exponents. *)
Definition template25_image30 : CuDetectorCascade :=
  configure 25 25 30 30 30 (-10) 10 fresh.

Definition returned (o : outcome CuDetectorCascade) (otherwise : CuDetectorCascade)
  : CuDetectorCascade :=
  match o with
  | Returns c => c
  | _ => otherwise
  end.

(** What a caller does to switch the proportional step on or off:
    assign the public member [useShift]. *)
Definition set_useShift (b : bool) (this : CuDetectorCascade)
  : CuDetectorCascade :=
  {| objWidth := objWidth this;
     objHeight := objHeight this;
     useShift := b;
     imgHeight := imgHeight this;
     imgWidth := imgWidth this;
     shift := shift this;
     minScale := minScale this;
     maxScale := maxScale this;
     minSize := minSize this;
     imgWidthStep := imgWidthStep this;
     numTrees := numTrees this;
     numFeatures := numFeatures this;
     initialised := initialised this;
     windows_d := windows_d this;
     numScales := numScales this;
     scales := scales this;
     numWindows := numWindows this;
     windows := windows this;
     windowOffsets := windowOffsets this;
     varianceFilter := varianceFilter this;
     ensembleClassifier := ensembleClassifier this;
     nnClassifier := nnClassifier this;
     clustering := clustering this;
     detectionResult := detectionResult this;
     calls := calls this |}.

(** Template 25x25, image 4200x4200 with stride 4200, the single exponent
    0 and the proportional step off: 4175 x 4175 windows in steps of 1. *)
Definition template25_image4200 : CuDetectorCascade :=
  set_useShift false (configure 25 25 4200 4200 4200 0 0 fresh).



(** The cascade [template25_image30] after [init]. *)
Definition ready30 : CuDetectorCascade :=
  returned (init 30 template25_image30) template25_image30.

(** A frame type with one frame, a variance filter that keeps every window
    and per-window tests that accept every window. *)
Definition keep_all (vf : CuVarianceFilter) (img : unit) (indices : list Z)
  (numInWins : Z) : list Z :=
  indices.
Definition accept_all {Component : Type} (c : Component) (img : unit) (i : Z)
  : bool := true.

(** ** Statements about the generated geometry *)

(** Every window record that [initWindowsAndScales] produces is inset. *)
Definition every_window_inset (this : CuDetectorCascade) (fuel : nat) : Prop :=
  forall this' windows' i,
    initWindowsAndScales this fuel = Returns this' ->
    windows this' = Some windows' ->
    0 <= i < numWindows this' ->
    window_inset this windows' i.

(** The scales the first loop stores, and their number; where the
    allocation throws, the members keep what they held. *)
Definition stored_scales (this : CuDetectorCascade) : list Size :=
  match count_pass this with
  | Some (scales', numScales', _) => take (Z.to_nat numScales') scales'
  | None => take (Z.to_nat (numScales this)) (default [] (scales this))
  end.

Definition stored_numScales (this : CuDetectorCascade) : Z :=
  match count_pass this with
  | Some (_, numScales', _) => numScales'
  | None => numScales this
  end.

(** The enumeration for [template24_image100] as the specification's
    example tells it: 20 rejected, 24 and 29 accepted, two scales. *)
Definition example_enumeration_as_told : Prop :=
  candidate template24_image100 (-1) = mkSize 20 20
  /\ ~ admissible template24_image100 (mkSize 20 20)
  /\ candidate template24_image100 0 = mkSize 24 24
  /\ admissible template24_image100 (mkSize 24 24)
  /\ candidate template24_image100 1 = mkSize 29 29
  /\ admissible template24_image100 (mkSize 29 29)
  /\ stored_scales template24_image100 = [mkSize 24 24; mkSize 29 29]
  /\ stored_numScales template24_image100 = 2.

(** ** Invariants of the generation pass *)

(** A property of [(windows, windowIndex)] kept by every write of a window
    that lies inside the image. *)
Definition kept_by_writes (this : CuDetectorCascade)
  (I : list Z * Z -> Prop) : Prop :=
  forall x y w h s st,
    1 <= x -> 1 <= y -> x + w <= imgWidth this -> y + h <= imgHeight this ->
    I st -> I (write_window x y w h s st).

(** The buffer keeps its length and every record written so far lies
    inside the image. *)
Definition windows_inside (this : CuDetectorCascade) (len : nat)
  (st : list Z * Z) : Prop :=
  length (fst st) = len /\ 0 <= snd st
  /\ forall i, 0 <= i < snd st ->
       (Z.to_nat (5 * i + 4) < len)%nat -> window_inside this (fst st) i.

(** ** Offset records *)

(** The six values [initWindowOffsets] derives from window [i]. *)
Definition offset_record (this : CuDetectorCascade) (windows : list Z) (i : Z)
  : list Z :=
  [sub2idx (int_sub (window_x windows i) 1) (int_sub (window_y windows i) 1)
     (imgWidthStep this);
   sub2idx (int_sub (window_x windows i) 1)
     (int_sub (int_add (window_y windows i) (window_h windows i)) 1)
     (imgWidthStep this);
   sub2idx (int_sub (int_add (window_x windows i) (window_w windows i)) 1)
     (int_sub (window_y windows i) 1) (imgWidthStep this);
   sub2idx (int_sub (int_add (window_x windows i) (window_w windows i)) 1)
     (int_sub (int_add (window_y windows i) (window_h windows i)) 1)
     (imgWidthStep this);
   int_mul (int_mul (int_mul (window_scale windows i) 2) (numFeatures this))
     (numTrees this);
   int_mul (window_w windows i) (window_h windows i)].

(** A value an [int] holds. *)
Definition fits_int (z : Z) : Prop := - 2 ^ 31 <= z < 2 ^ 31.



(** The state of the offset loop after [k] windows of [n]. *)
Definition offsets_filled (this : CuDetectorCascade) (windows : list Z)
  (n k : nat) (st : list Z * nat) : Prop :=
  snd st = (6 * k)%nat /\ length (fst st) = (6 * n)%nat
  /\ forall (i j : nat), (i < k)%nat -> (j < 6)%nat ->
       fst st !! (6 * i + j)%nat = offset_record this windows (Z.of_nat i) !! j.



(** What a caller does before a second [init]: assign the template size. *)
Definition set_template (w h : Z) (this : CuDetectorCascade) : CuDetectorCascade :=
  configure w h (imgWidth this) (imgHeight this) (imgWidthStep this)
    (minScale this) (maxScale this) this.

(** ** The window grid in closed form *)

(** The windows of one row of a scale, of one scale, and of all scales:
    columns inside rows inside scales. *)
Definition row_records (this : CuDetectorCascade) (s : Z) (sz : Size) (r : Z)
  : list (list Z) :=
  map (fun c => [1 + c * shift_step this (width sz);
                 1 + r * shift_step this (height sz);
                 width sz; height sz; s])
    (seqZ 0 (axis_count (scanAreaW this) (width sz) (shift_step this (width sz)))).

Definition scale_records (this : CuDetectorCascade) (s : Z) (sz : Size)
  : list (list Z) :=
  flat_map (row_records this s sz)
    (seqZ 0 (axis_count (scanAreaH this) (height sz) (shift_step this (height sz)))).

Fixpoint scales_records (this : CuDetectorCascade) (s : Z) (l : list Size)
  : list (list Z) :=
  match l with
  | [] => []
  | sz :: l' => scale_records this s sz ++ scales_records this (s + 1) l'
  end.

Definition grid_records (this : CuDetectorCascade) : list (list Z) :=
  scales_records this 0 (accepted_scales this).

(** The size test of line 201, spelled out. *)
Definition within_limits (this : CuDetectorCascade) (sz : Size) : Prop :=
  minSize this <= width sz <= imgWidth this - 1
  /\ minSize this <= height sz <= imgHeight this - 1.

(** The window buffer while it is filled: the records written so far, then
    room for [R] more, and [windowIndex]. *)
Definition filled (recs : list (list Z)) (R : Z) : list Z * Z :=
  (concat recs ++ replicate (Z.to_nat (5 * R)) 0, Z.of_nat (length recs)).

Definition is_record (r : list Z) : Prop := length r = 5%nat.

(** What holds of every record of the grid: it names a stored scale,
    carries that scale's size, and lies on the lattice of that scale's
    steps, inside the image. *)
Definition consistent_record (this : CuDetectorCascade) (r : list Z) : Prop :=
  exists x y s sz,
    r = [x; y; width sz; height sz; s]
    /\ 0 <= s < Z.of_nat (length (accepted_scales this))
    /\ accepted_scales this !! Z.to_nat s = Some sz
    /\ (x - 1) mod shift_step this (width sz) = 0
    /\ (y - 1) mod shift_step this (height sz) = 0
    /\ 1 <= x /\ 1 <= y
    /\ x + width sz <= imgWidth this /\ y + height sz <= imgHeight this.

(** The configuration members: [init], [release] (the template size apart)
    and [detect] leave them as they are. *)
Definition same_image_configuration (a b : CuDetectorCascade) : Prop :=
  imgWidth a = imgWidth b /\ imgHeight a = imgHeight b
  /\ imgWidthStep a = imgWidthStep b
  /\ useShift a = useShift b /\ shift a = shift b
  /\ minScale a = minScale b /\ maxScale a = maxScale b
  /\ minSize a = minSize b
  /\ numTrees a = numTrees b /\ numFeatures a = numFeatures b.

Definition same_configuration (a b : CuDetectorCascade) : Prop :=
  objWidth a = objWidth b /\ objHeight a = objHeight b
  /\ same_image_configuration a b.

(** ** The destructor (lines 67-76) *)

(** The five objects the constructor makes with [new]. *)
Inductive Component : Type :=
| the_varianceFilter
| the_ensembleClassifier
| the_nnClassifier
| the_clustering
| the_detectionResult.

(** The destructor: [release()], then four [delete]s; the result is the
    cascade after [release] and the components deleted, in order. *)
Definition destructor (this : CuDetectorCascade)
  : CuDetectorCascade * list Component :=
  (release this,
   [the_varianceFilter; the_ensembleClassifier; the_nnClassifier;
    the_detectionResult]).

(** Number of calls of [cudaMalloc] and of [cudaFree] in a log. *)
Definition is_cudaMalloc (e : Event) : bool :=
  match e with cudaMalloc _ => true | _ => false end.

Definition is_cudaFree (e : Event) : bool :=
  match e with cudaFree => true | _ => false end.

Definition device_allocations (log : list Event) : nat :=
  length (List.filter is_cudaMalloc log).

Definition device_frees (log : list Event) : nat :=
  length (List.filter is_cudaFree log).


(* ================================================================== *)
(** * Part II: lemmas and theorems *)
(* ================================================================== *)

(** ** Rounding *)

Module IEEE_facts.
Import IEEE.

Lemma rne_bounds p q : 0 < q -> p / q <= rne p q <= p / q + 1.
Proof.
  intros Hq. unfold rne.
  destruct (2 * (p mod q) ?= q); [destruct (Z.even (p / q))| |]; lia.
Qed.

Lemma rne_exact k q : 0 < q -> rne (k * q) q = k.
Proof.
  intros Hq. unfold rne.
  rewrite Z.mod_mul, Z.div_mul by lia.
  destruct (2 * 0 ?= q) eqn:E; try reflexivity.
  - apply Z.compare_eq in E. lia.
  - apply Z.compare_gt_iff in E. lia.
Qed.

Lemma rne_le p q k : 0 < q -> p <= k * q -> rne p q <= k.
Proof.
  intros Hq Hp.
  destruct (Z.eq_dec p (k * q)) as [->|Hne].
  - rewrite rne_exact; lia.
  - pose proof (rne_bounds p q Hq).
    assert (p / q < k) by (apply Z.div_lt_upper_bound; lia). lia.
Qed.

Lemma rne_ge p q k : 0 < q -> k * q <= p -> k <= rne p q.
Proof.
  intros Hq Hp. pose proof (rne_bounds p q Hq).
  assert (k <= p / q) by (apply Z.div_le_lower_bound; lia). lia.
Qed.

Lemma rne_lt p q k : 0 < q -> 2 * p < (2 * k - 1) * q -> rne p q < k.
Proof.
  intros Hq Hp. unfold rne.
  pose proof (Z.div_mod p q ltac:(lia)) as Hdm.
  pose proof (Z.mod_pos_bound p q Hq) as Hr.
  assert (Hf : p / q < k) by (apply Z.div_lt_upper_bound; lia).
  assert (Hc : p / q <= k - 2 \/ 2 * (p mod q) < q) by nia.
  destruct (2 * (p mod q) ?= q) eqn:E.
  - apply Z.compare_eq in E. destruct (Z.even (p / q)); lia.
  - lia.
  - apply Z.compare_gt_iff in E. lia.
Qed.

(** *** binary32 *)

Lemma ulp32_unfold n d :
  ulp32 n d = Z.max (Z.log2 (Z.abs n * 2 ^ 149 / d) - 23) 0 - 149.
Proof. unfold ulp_exp, emin. change (- (3 - 128 - 24)) with 149. lia. Qed.

Lemma ulp32_lower n d : - 149 <= ulp32 n d.
Proof. rewrite ulp32_unfold. lia. Qed.

Lemma ulp32_small n d :
  0 < d -> Z.abs n < 2 ^ 24 * d -> ulp32 n d <= 0.
Proof.
  intros Hd Hn. rewrite ulp32_unfold.
  set (N := Z.abs n * 2 ^ 149 / d).
  assert (HN : N < 2 ^ 173).
  { apply Z.div_lt_upper_bound; [lia|].
    change (2 ^ 173) with (2 ^ 24 * 2 ^ 149). nia. }
  destruct (Z.le_gt_cases N 0) as [H0|H0].
  - assert (Z.log2 N = 0) by (apply Z.log2_nonpos; lia). lia.
  - apply Z.log2_lt_pow2 in HN; lia.
Qed.

Lemma ulp32_fine n d :
  0 < d < 2 ^ 25 -> Z.abs n < 2 ^ 24 -> d < 2 * 2 ^ (- ulp32 n d).
Proof.
  intros Hd Hn. rewrite ulp32_unfold.
  set (N := Z.abs n * 2 ^ 149 / d).
  assert (HNd : d * N <= Z.abs n * 2 ^ 149) by (apply Z.mul_div_le; lia).
  assert (HN0 : 0 <= N) by (apply Z.div_pos; lia).
  destruct (Z.le_gt_cases (Z.log2 N) 23) as [HL|HL].
  - replace (- (Z.max (Z.log2 N - 23) 0 - 149)) with 149 by lia.
    assert (2 ^ 25 < 2 * 2 ^ 149) by (vm_compute; reflexivity). lia.
  - replace (- (Z.max (Z.log2 N - 23) 0 - 149)) with (172 - Z.log2 N) by lia.
    assert (HNpos : 0 < N).
    { destruct (Z.eq_dec N 0) as [E|]; [|lia]. rewrite E in HL. simpl in HL. lia. }
    pose proof (Z.log2_spec N HNpos) as [HL1 _].
    assert (HL2 : Z.log2 N <= 172).
    { assert (N < 2 ^ 173).
      { apply Z.div_lt_upper_bound; [lia|].
        change (2 ^ 173) with (2 ^ 24 * 2 ^ 149). nia. }
      apply Z.log2_lt_pow2 in H; lia. }
    assert (Hsplit : 2 ^ 173 = 2 ^ Z.log2 N * (2 * 2 ^ (172 - Z.log2 N))).
    { rewrite <- Z.pow_succ_r, <- Z.pow_add_r by lia. f_equal. lia. }
    assert (Hlt : d * 2 ^ Z.log2 N < 2 ^ 173).
    { change (2 ^ 173) with (2 ^ 24 * 2 ^ 149). nia. }
    rewrite Hsplit in Hlt.
    assert (0 < 2 ^ Z.log2 N) by (apply Z.pow_pos_nonneg; lia).
    nia.
Qed.

Lemma Qfrac_le m P k : 0 < P -> m <= k * P -> (m # Z.to_pos P <= inject_Z k)%Q.
Proof.
  intros HP H. unfold Qle. simpl. rewrite Z2Pos.id by lia. lia.
Qed.

Lemma Qfrac_ge m P k : 0 < P -> k * P <= m -> (inject_Z k <= m # Z.to_pos P)%Q.
Proof.
  intros HP H. unfold Qle. simpl. rewrite Z2Pos.id by lia. lia.
Qed.

Lemma no_overflow32 r :
  (- inject_Z (2 ^ 24) <= r)%Q -> (r <= inject_Z (2 ^ 24))%Q ->
  Qle_bool (inject_Z (2 ^ 128)) (Qabs r) = false.
Proof.
  intros Hlo Hhi.
  destruct (Qle_bool (inject_Z (2 ^ 128)) (Qabs r)) eqn:E; [|reflexivity].
  apply Qle_bool_iff in E.
  assert (Ha : (Qabs r <= inject_Z (2 ^ 24))%Q) by (apply Qabs_Qle_condition; split; assumption).
  pose proof (Qle_trans _ _ _ E Ha) as Hc.
  rewrite <- Zle_Qle in Hc. vm_compute in Hc. exfalso. apply Hc. reflexivity.
Qed.

(** Value of a rounding whose quantum is at most one. *)
Lemma round32_small n d :
  0 < d -> Z.abs n < 2 ^ 24 * d ->
  round32 n d =
    Finite (Qred (rne (n * 2 ^ (- ulp32 n d)) d # Z.to_pos (2 ^ (- ulp32 n d)))).
Proof.
  intros Hd Hn.
  pose proof (ulp32_small n d Hd Hn) as He.
  unfold round_frac.
  set (e := ulp32 n d) in *.
  assert (HP : 0 < 2 ^ (- e)) by (apply Z.pow_pos_nonneg; lia).
  set (P := 2 ^ (- e)) in *.
  set (m := rne (n * P) d).
  assert (Hm1 : m <= 2 ^ 24 * P) by (apply rne_le; nia).
  assert (Hm2 : - 2 ^ 24 * P <= m) by (apply rne_ge; nia).
  assert (Hr : (if 0 <=? e
                then inject_Z (rne n (d * 2 ^ e) * 2 ^ e)
                else Qred (m # Z.to_pos P)) = Qred (m # Z.to_pos P)).
  { destruct (0 <=? e) eqn:E; [|reflexivity].
    apply Z.leb_le in E. assert (e = 0) by lia.
    subst m P. rewrite H. change (- 0) with 0. change (2 ^ 0) with 1.
    rewrite !Z.mul_1_r. symmetry. apply (inject_Z_Qred (rne n d)). }
  rewrite Hr.
  rewrite no_overflow32; [reflexivity| |].
  - rewrite Qred_correct. rewrite <- inject_Z_opp. apply Qfrac_ge; lia.
  - rewrite Qred_correct. apply Qfrac_le; lia.
Qed.

(** Integers below [2^24] are binary32 numbers. *)
Lemma round32_int z : Z.abs z < 2 ^ 24 -> round32 z 1 = Finite (inject_Z z).
Proof.
  intros Hz. rewrite round32_small by lia.
  pose proof (ulp32_small z 1 ltac:(lia) ltac:(lia)) as He.
  set (e := ulp32 z 1) in *.
  assert (HP : 0 < 2 ^ (- e)) by (apply Z.pow_pos_nonneg; lia).
  f_equal. rewrite <- (inject_Z_Qred z). apply Qred_complete.
  replace (z * 2 ^ (- e)) with (z * 2 ^ (- e) * 1) by lia.
  rewrite rne_exact by lia.
  unfold Qeq. simpl. rewrite Z2Pos.id by lia. lia.
Qed.

(** The floor of a rounded quotient of two small integers is their
    integer quotient: rounding never reaches the next integer. *)
Lemma round32_quot_floor a b :
  0 <= a < 2 ^ 24 -> 0 < b < 2 ^ 25 ->
  floor (round32 a b) = Finite (inject_Z (a / b)).
Proof.
  intros Ha Hb. rewrite round32_small by nia.
  pose proof (ulp32_small a b ltac:(lia) ltac:(nia)) as He.
  pose proof (ulp32_fine a b Hb ltac:(lia)) as Hf.
  set (e := ulp32 a b) in *.
  assert (HP : 0 < 2 ^ (- e)) by (apply Z.pow_pos_nonneg; lia).
  set (P := 2 ^ (- e)) in *.
  pose proof (Z.div_mod a b ltac:(lia)) as Hdm.
  pose proof (Z.mod_pos_bound a b ltac:(lia)) as Hr.
  set (k := a / b) in *.
  assert (Hm1 : k * P <= rne (a * P) b) by (apply rne_ge; nia).
  assert (Hm2 : rne (a * P) b < (k + 1) * P) by (apply rne_lt; nia).
  simpl. do 2 f_equal.
  rewrite (Qfloor_comp _ _ (Qred_correct _)).
  unfold Qfloor. rewrite Z2Pos.id by lia.
  symmetry. apply Z.div_unique with (r := rne (a * P) b - k * P); lia.
Qed.

(** Rounding a value at most an integer [W < 2^24] stays at most [W]. *)
Lemma round32_le_int n d W :
  0 < d -> 0 <= n -> n <= W * d -> W < 2 ^ 24 ->
  exists r, round32 n d = Finite r /\ (0 <= r)%Q /\ (r <= inject_Z W)%Q.
Proof.
  intros Hd Hn HW HW24.
  assert (Hs : Z.abs n < 2 ^ 24 * d) by nia.
  rewrite round32_small by assumption.
  pose proof (ulp32_small n d Hd Hs) as He.
  set (e := ulp32 n d) in *.
  assert (HP : 0 < 2 ^ (- e)) by (apply Z.pow_pos_nonneg; lia).
  set (P := 2 ^ (- e)) in *.
  assert (Hm1 : rne (n * P) d <= W * P) by (apply rne_le; nia).
  assert (Hm2 : 0 <= rne (n * P) d) by (apply rne_ge; nia).
  eexists. split; [reflexivity|]. rewrite Qred_correct. split.
  - change 0%Q with (inject_Z 0). apply Qfrac_ge; lia.
  - apply Qfrac_le; lia.
Qed.

(** Rounding a negative value never gives a positive one. *)
Lemma round32_neg n d :
  0 < d -> n < 0 ->
  round32 n d = Infinity true \/
  exists r, round32 n d = Finite r /\ (r <= 0)%Q.
Proof.
  intros Hd Hn. unfold round_frac.
  set (e := ulp32 n d).
  set (r := if 0 <=? e then _ else _).
  assert (Hr : (r <= 0)%Q).
  { subst r. destruct (0 <=? e) eqn:E.
    - apply Z.leb_le in E.
      assert (0 < 2 ^ e) by (apply Z.pow_pos_nonneg; lia).
      assert (rne n (d * 2 ^ e) <= 0) by (apply rne_le; nia).
      change 0%Q with (inject_Z 0). rewrite <- Zle_Qle. nia.
    - apply Z.leb_gt in E.
      assert (0 < 2 ^ (- e)) by (apply Z.pow_pos_nonneg; lia).
      assert (rne (n * 2 ^ (- e)) d <= 0) by (apply rne_le; nia).
      rewrite Qred_correct. change 0%Q with (inject_Z 0).
      apply Qfrac_le; lia. }
  destruct (Qle_bool _ _).
  - left. f_equal. apply Z.ltb_lt. assumption.
  - right. exists r. split; [reflexivity | assumption].
Qed.

Lemma to_int_pos r W :
  (1 <= r)%Q -> (r <= inject_Z W)%Q -> W < 2 ^ 31 ->
  1 <= to_int (Finite r) <= W.
Proof.
  intros H1 HW HW31. unfold to_int, is_neg.
  assert (Hn : 0 < Qnum r).
  { unfold Qle in H1. simpl in H1. lia. }
  replace (Qnum r <? 0) with false by (symmetry; apply Z.ltb_ge; lia).
  assert (Hf1 : 1 <= Qfloor r).
  { change 1 with (Qfloor (inject_Z 1)). apply Qfloor_resp_le. assumption. }
  assert (Hf2 : Qfloor r <= W).
  { rewrite <- (Qfloor_Z W). apply Qfloor_resp_le. assumption. }
  unfold INT_MIN.
  assert (- 2 ^ 31 < 0) by (vm_compute; reflexivity).
  replace (- 2 ^ 31 <=? Qfloor r) with true by (symmetry; apply Z.leb_le; lia).
  replace (Qfloor r <? 2 ^ 31) with true by (symmetry; apply Z.ltb_lt; lia).
  simpl. lia.
Qed.

Lemma to_int_Z z : - 2 ^ 31 <= z < 2 ^ 31 -> to_int (Finite (inject_Z z)) = z.
Proof.
  intros Hz. unfold to_int, is_neg, INT_MIN.
  assert (Ht : (if Qnum (inject_Z z) <? 0 then Qceiling (inject_Z z) else Qfloor (inject_Z z)) = z).
  { destruct (_ <? _); [apply Qceiling_Z | apply Qfloor_Z]. }
  rewrite Ht.
  replace (- 2 ^ 31 <=? z) with true by (symmetry; apply Z.leb_le; lia).
  replace (z <? 2 ^ 31) with true by (symmetry; apply Z.ltb_lt; lia).
  reflexivity.
Qed.
End IEEE_facts.

Module F32_facts.
Import IEEE IEEE_facts.

Lemma of_Z_exact z : Z.abs z < 2 ^ 24 -> F32.of_Z z = Finite (inject_Z z).
Proof. intros Hz. unfold F32.of_Z, of_Z, round. simpl. apply round32_int, Hz. Qed.

(** [(float)a / b] followed by [floor], on small integers. *)
Lemma floor_div_exact a b :
  0 <= a < 2 ^ 24 -> 0 < b < 2 ^ 24 ->
  floor (F32.div (F32.of_Z a) (F32.of_Z b)) = Finite (inject_Z (a / b)).
Proof.
  intros Ha Hb. rewrite !of_Z_exact by lia.
  unfold F32.div, div, is_zero. simpl Qnum at 1.
  replace (b =? 0) with false by (symmetry; apply Z.eqb_neq; lia).
  unfold round. destruct b as [|p|p]; try lia.
  simpl. rewrite Z.mul_1_r. apply round32_quot_floor; lia.
Qed.

Lemma mul_exact p q :
  Z.abs (p * q) < 2 ^ 24 ->
  F32.mul (Finite (inject_Z p)) (Finite (inject_Z q)) = Finite (inject_Z (p * q)).
Proof. intros H. unfold F32.mul, mul, round. simpl. apply round32_int, H. Qed.

Lemma add_exact p q :
  Z.abs (p + q) < 2 ^ 24 ->
  F32.add (Finite (inject_Z p)) (Finite (inject_Z q)) = Finite (inject_Z (p + q)).
Proof.
  intros H. unfold F32.add, add, round. simpl. rewrite !Z.mul_1_r.
  apply round32_int, H.
Qed.
End F32_facts.



(** The operations above agree with the bit-level ones of the Standard
    Library on a grid of quotients, products and sums. *)
Example binary32_agrees_with_SpecFloat :
  forallb (fun a =>
    forallb (fun b =>
      match F32.div (F32.of_Z a) (F32.of_Z b),
            F32.mul (F32.of_Z a) (F32.div (F32.of_Z 1) (F32.of_Z b)),
            F32.add (F32.of_Z a) (F32.div (F32.of_Z 1) (F32.of_Z b)) with
      | IEEE.Finite q, IEEE.Finite p, IEEE.Finite s =>
          let sa := SF32_of_Z a in
          let sb := SF32_of_Z b in
          let inv := SpecFloat.SFdiv 24 128 (SF32_of_Z 1) sb in
          Qeq_bool q (SF2Q (SpecFloat.SFdiv 24 128 sa sb))
          && Qeq_bool p (SF2Q (SpecFloat.SFmul 24 128 sa inv))
          && Qeq_bool s (SF2Q (SpecFloat.SFadd 24 128 sa inv))
      | _, _, _ => false
      end)
      (seqZ 1 40 ++ seqZ 16777190 30))
    (seqZ (-20) 60 ++ seqZ 16777200 16) = true.
Proof. vm_compute. reflexivity. Qed.

(** ** Steps and counts *)

Section Geometry_facts.
Import IEEE IEEE_facts F32_facts.
Variable this : CuDetectorCascade.
Hypothesis Hshift : shift_ok this = true.

Lemma max_one_Finite r :
  (r <= 1)%Q -> IEEE.max (Finite 1) (Finite r) = Finite 1.
Proof.
  intros Hr. unfold IEEE.max, ltb.
  destruct (1 ?= r)%Q eqn:E; try reflexivity.
  apply Qlt_alt in E. exfalso. apply (Qlt_not_le _ _ E Hr).
Qed.

Lemma shift_step_bounds side :
  0 <= side < 2 ^ 24 ->
  1 <= shift_step this side <= Z.max 1 side.
Proof using Hshift.
  intros Hside. unfold shift_step, shift_ok in *.
  destruct (useShift this); [|lia]. simpl in Hshift.
  destruct (shift this) as [q| |]; try discriminate.
  apply Qle_bool_iff in Hshift.
  rewrite !of_Z_exact by (simpl; lia).
  unfold F32.mul, mul, round. simpl Qnum. simpl Qden.
  change (1 * Qden q)%positive with (Qden q).
  change (inject_Z 1) with 1%Q.
  assert (Hq : Qnum q <= Zpos (Qden q)).
  { unfold Qle in Hshift. simpl in Hshift. lia. }
  destruct (Z.lt_ge_cases (side * Qnum q) 0) as [Hneg|Hpos].
  - destruct (round32_neg (side * Qnum q) (Zpos (Qden q)) ltac:(lia) Hneg)
      as [E|(r & E & Hr)]; rewrite E.
    + replace (to_int (IEEE.max (Finite 1) (Infinity true))) with 1
        by (vm_compute; reflexivity).
      lia.
    + rewrite max_one_Finite.
      * change (to_int (Finite 1)) with 1. lia.
      * apply Qle_trans with 0%Q; [assumption | discriminate].
  - destruct (round32_le_int (side * Qnum q) (Zpos (Qden q)) side
                ltac:(lia) Hpos ltac:(nia) ltac:(lia)) as (r & E & Hr0 & Hr1).
    rewrite E. unfold IEEE.max, ltb.
    destruct (1 ?= r)%Q eqn:C.
    + change (to_int (Finite 1)) with 1. lia.
    + apply Qlt_alt in C.
      pose proof (to_int_pos r side (Qlt_le_weak _ _ C) Hr1 ltac:(lia)). lia.
    + change (to_int (Finite 1)) with 1. lia.
Qed.

Lemma count_windows_exact nw w h ssw ssh :
  0 < ssw < 2 ^ 24 -> 0 < ssh < 2 ^ 24 ->
  0 <= scanAreaW this - w + ssw < 2 ^ 24 ->
  0 <= scanAreaH this - h + ssh < 2 ^ 24 ->
  0 <= nw ->
  nw + axis_count (scanAreaW this) w ssw * axis_count (scanAreaH this) h ssh
    < 2 ^ 24 ->
  count_windows this nw w h ssw ssh
  = nw + axis_count (scanAreaW this) w ssw * axis_count (scanAreaH this) h ssh.
Proof using Type.
  intros Hsw Hsh Ha Hb Hnw Htot. unfold count_windows, axis_count in *.
  set (a := scanAreaW this - w + ssw) in *.
  set (b := scanAreaH this - h + ssh) in *.
  assert (0 <= a / ssw) by (apply Z.div_pos; lia).
  assert (0 <= b / ssh) by (apply Z.div_pos; lia).
  rewrite !floor_div_exact by lia.
  rewrite mul_exact by nia.
  rewrite of_Z_exact by lia.
  rewrite add_exact by nia.
  apply to_int_Z. lia.
Qed.
End Geometry_facts.

(** ** The counting pass *)

Lemma axis_count_bounds area side step :
  0 <= side <= area -> 1 <= step <= Z.max 1 side ->
  1 <= axis_count area side step <= area + 1.
Proof.
  intros Hs Hst. unfold axis_count. split.
  - apply Z.div_le_lower_bound; lia.
  - apply Z.div_le_upper_bound; nia.
Qed.

Section Counting.
Variable this : CuDetectorCascade.
Hypothesis Hvalid : valid_config this.

Lemma valid_shift : shift_ok this = true.
Proof using Hvalid. unfold valid_config in Hvalid. tauto. Qed.

Lemma valid_image_bounds :
  0 < imgWidth this < 2 ^ 24 /\ 0 < imgHeight this < 2 ^ 24.
Proof using Hvalid.
  destruct Hvalid as (_ & _ & HW & HH & _). tauto.
Qed.

Lemma admissible_bounds sz :
  admissible this sz ->
  0 <= width sz <= scanAreaW this /\ 0 <= height sz <= scanAreaH this.
Proof using Hvalid.
  destruct Hvalid as (_ & _ & _ & _ & _ & Hm & _).
  unfold admissible, rejected. intros H.
  apply orb_false_elim in H as [H H4].
  apply orb_false_elim in H as [H H3].
  apply orb_false_elim in H as [H1 H2].
  apply Z.ltb_ge in H1, H2.
  rewrite Z.gtb_ltb in H3, H4. apply Z.ltb_ge in H3, H4. lia.
Qed.

Lemma admissible_steps sz :
  admissible this sz ->
  1 <= shift_step this (width sz) <= Z.max 1 (width sz)
  /\ 1 <= shift_step this (height sz) <= Z.max 1 (height sz).
Proof using Hvalid.
  intros Ha. pose proof (admissible_bounds sz Ha) as [Hw Hh].
  pose proof valid_image_bounds as [HW HH]. unfold scanAreaW, scanAreaH in *.
  split; apply shift_step_bounds; try apply valid_shift; lia.
Qed.

Lemma scale_count_bounds sz :
  admissible this sz ->
  1 <= scale_count this sz <= imgWidth this * imgHeight this.
Proof using Hvalid.
  intros Ha. pose proof (admissible_bounds sz Ha) as [Hw Hh].
  pose proof (admissible_steps sz Ha) as [Hsw Hsh].
  pose proof (axis_count_bounds _ _ _ Hw Hsw) as Hx.
  pose proof (axis_count_bounds _ _ _ Hh Hsh) as Hy.
  unfold scale_count, scanAreaW, scanAreaH in *. nia.
Qed.

Lemma sum_counts_bounds l :
  Forall (admissible this) l -> 0 <= sum_counts this l.
Proof using Hvalid.
  induction 1 as [|sz l Ha _ IH]; simpl; [lia|].
  pose proof (scale_count_bounds sz Ha). lia.
Qed.

Lemma accepted_among_admissible exps :
  Forall (admissible this) (accepted_among this exps).
Proof using Type.
  unfold accepted_among. apply Forall_forall. intros sz Hin.
  apply list_elem_of_filter in Hin. tauto.
Qed.

Lemma accepted_among_length exps :
  (length (accepted_among this exps) <= length exps)%nat.
Proof using Type.
  unfold accepted_among.
  etransitivity; [apply length_filter|]. rewrite length_map. reflexivity.
Qed.

(** One accepted scale: the float arithmetic of the count is exact. *)
Lemma count_windows_scale nw sz :
  admissible this sz -> 0 <= nw ->
  nw + scale_count this sz < 2 ^ 24 ->
  count_windows this nw (width sz) (height sz)
    (shift_step this (width sz)) (shift_step this (height sz))
  = nw + scale_count this sz.
Proof using Hvalid.
  intros Ha Hnw Hb.
  pose proof (admissible_bounds sz Ha) as [Hw Hh].
  pose proof (admissible_steps sz Ha) as [Hsw Hsh].
  pose proof (scale_count_bounds sz Ha) as Hc.
  pose proof valid_image_bounds as [HW HH].
  unfold scale_count.
  apply count_windows_exact; unfold scale_count, scanAreaW, scanAreaH in *; lia.
Qed.

(** The first loop from any intermediate state. *)
Lemma count_fold exps : forall scales (k : nat) nw,
  (k + length (accepted_among this exps) <= length scales)%nat ->
  0 <= nw ->
  nw + sum_counts this (accepted_among this exps) < 2 ^ 24 ->
  foldl (count_step this) (scales, Z.of_nat k, nw) exps
  = (take k scales ++ accepted_among this exps
       ++ drop (k + length (accepted_among this exps)) scales,
     Z.of_nat (k + length (accepted_among this exps)),
     nw + sum_counts this (accepted_among this exps)).
Proof using Hvalid.
  induction exps as [|i exps IH]; intros scales k nw Hlen Hnw Hb.
  - simpl. rewrite Nat.add_0_r, take_drop, Z.add_0_r. reflexivity.
  - cbn [foldl]. unfold count_step at 2.
    change (mkSize (scaled_side (objWidth this) i) (scaled_side (objHeight this) i))
      with (candidate this i).
    unfold accepted_among in *. cbn [map] in *.
    destruct (rejected this (scaled_side (objWidth this) i)
                (scaled_side (objHeight this) i)) eqn:R.
    + rewrite filter_cons_False in *
        by (unfold admissible; simpl; rewrite R; discriminate).
      apply IH; assumption.
    + assert (Ha : admissible this (candidate this i)) by exact R.
      rewrite filter_cons_True in * by exact Ha.
      cbn [length] in *.
      set (acc := filter (admissible this) (map (candidate this) exps)) in *.
      pose proof (scale_count_bounds _ Ha) as Hc.
      assert (Hacc : Forall (admissible this) acc)
        by apply (accepted_among_admissible exps).
      pose proof (sum_counts_bounds acc Hacc) as Hsum.
      unfold sum_counts in Hb. cbn [foldr] in Hb. fold (sum_counts this acc) in Hb.
      change (scaled_side (objWidth this) i) with (width (candidate this i)).
      change (scaled_side (objHeight this) i) with (height (candidate this i)).
      rewrite count_windows_scale by (try assumption; lia).
      rewrite Nat2Z.id.
      replace (Z.of_nat k + 1) with (Z.of_nat (S k)) by lia.
      rewrite IH; rewrite ?length_insert; try lia.
      * f_equal; [f_equal|].
        -- rewrite (take_S_r _ _ (candidate this i))
             by (apply list_lookup_insert_eq; lia).
           rewrite take_insert_ge by lia.
           rewrite <- app_assoc. cbn [app].
           rewrite drop_insert_lt by lia.
           replace (S k + length acc)%nat with (k + S (length acc))%nat by lia.
           reflexivity.
        -- lia.
        -- unfold sum_counts. cbn [foldr]. lia.
Qed.

(** The whole first loop. *)
Lemma count_pass_spec :
  exists rest,
    count_pass this
    = Some (accepted_scales this ++ rest,
            Z.of_nat (length (accepted_scales this)),
            counted_windows this).
Proof using Hvalid.
  unfold count_pass, accepted_scales, counted_windows.
  fold (exponents this).
  pose proof (accepted_among_length (exponents this)) as Hlen.
  pose proof valid_image_bounds as [HW HH].
  assert (Hn : length (exponents this)
               = Z.to_nat (maxScale this - minScale this + 1))
    by apply length_seqZ.
  destruct Hvalid as (_ & _ & _ & _ & _ & _ & Hs & Hb & _).
  replace (maxScale this - minScale this + 1 <? 0) with false
    by (symmetry; apply Z.ltb_ge; lia).
  eexists.
  rewrite (count_fold (exponents this) _ 0%nat 0).
  - cbn [take app Nat.add Z.add]. reflexivity.
  - rewrite length_replicate. lia.
  - lia.
  - unfold counted_windows, accepted_scales in Hb. lia.
Qed.
End Counting.

(** ** The generation pass *)

Lemma write_window_index x y w h s st :
  snd (write_window x y w h s st) = snd st + 1.
Proof. destruct st. reflexivity. Qed.

Section Generation.
Variable this : CuDetectorCascade.
Variable I : list Z * Z -> Prop.
Hypothesis HI : kept_by_writes this I.

(** The column loop runs to its exit test and writes
    [floor((limit - w - x + ssw) / ssw)] windows. *)
Lemma gen_columns_rule w h ssw s y :
  1 <= ssw -> 1 <= y -> y + h <= imgHeight this ->
  forall fuel x st,
    1 <= x -> 0 <= imgWidth this - w - x + ssw ->
    (Z.to_nat (imgWidth this - w - x + ssw) <= fuel)%nat ->
    I st ->
    exists st',
      gen_columns this fuel w h ssw s y x st = Some st'
      /\ I st'
      /\ snd st' = snd st + (imgWidth this - w - x + ssw) / ssw.
Proof using HI.
  intros Hssw Hy Hyh.
  induction fuel as [|fuel IH]; intros x st Hx Hrem Hfuel Hst;
    cbn [gen_columns]; unfold scanAreaX, scanAreaW;
    destruct (x + w <=? 1 + (imgWidth this - 1)) eqn:G;
    try (apply Z.leb_le in G); try (apply Z.leb_gt in G).
  - lia.
  - exists st. rewrite Z.div_small by lia. split; [reflexivity|]. split; [assumption|lia].
  - destruct (IH (x + ssw) (write_window x y w h s st)) as (st' & E & Ist & Hidx).
    + lia.
    + lia.
    + lia.
    + apply HI; try assumption; lia.
    + exists st'. split; [exact E|]. split; [assumption|].
      rewrite Hidx, write_window_index.
      replace (imgWidth this - w - x + ssw)
        with (imgWidth this - w - (x + ssw) + ssw + 1 * ssw) by lia.
      rewrite Z.div_add by lia. lia.
  - exists st. rewrite Z.div_small by lia. split; [reflexivity|]. split; [assumption|lia].
Qed.

(** The row loop: every row writes the same number of windows. *)
Lemma gen_rows_rule w h ssw ssh s fuel_x :
  1 <= ssw -> 1 <= ssh -> 0 <= scanAreaW this - w + ssw ->
  (Z.to_nat (scanAreaW this - w + ssw) <= fuel_x)%nat ->
  forall fuel y st,
    1 <= y -> 0 <= imgHeight this - h - y + ssh ->
    (Z.to_nat (imgHeight this - h - y + ssh) <= fuel)%nat ->
    I st ->
    exists st',
      gen_rows this fuel fuel_x w h ssw ssh s y st = Some st'
      /\ I st'
      /\ snd st' = snd st
                   + axis_count (scanAreaW this) w ssw
                     * ((imgHeight this - h - y + ssh) / ssh).
Proof using HI.
  intros Hssw Hssh Hw Hfx.
  induction fuel as [|fuel IH]; intros y st Hy Hrem Hfuel Hst;
    cbn [gen_rows]; unfold scanAreaY, scanAreaH;
    destruct (y + h <=? 1 + (imgHeight this - 1)) eqn:G;
    try (apply Z.leb_le in G); try (apply Z.leb_gt in G).
  - lia.
  - exists st. rewrite Z.div_small by lia. split; [reflexivity|]. split; [assumption|lia].
  - destruct (gen_columns_rule w h ssw s y Hssw Hy ltac:(lia) fuel_x scanAreaX st)
      as (st1 & E1 & Ist1 & Hidx1); unfold scanAreaX, scanAreaW in *;
      try assumption; try lia.
    rewrite E1.
    destruct (IH (y + ssh) st1) as (st' & E & Ist & Hidx); try assumption; try lia.
    exists st'. split; [exact E|]. split; [assumption|].
    rewrite Hidx, Hidx1. unfold axis_count.
    replace (imgWidth this - w - 1 + ssw) with (imgWidth this - 1 - w + ssw) by lia.
    replace (imgHeight this - h - y + ssh)
      with (imgHeight this - h - (y + ssh) + ssh + 1 * ssh) by lia.
    rewrite Z.div_add by lia. lia.
  - exists st. rewrite Z.div_small by lia. split; [reflexivity|]. split; [assumption|lia].
Qed.
End Generation.

Section Scales.
Variable this : CuDetectorCascade.
Hypothesis Hvalid : valid_config this.
Variable I : list Z * Z -> Prop.
Hypothesis HI : kept_by_writes this I.
Variable fuel : nat.
Hypothesis Hfuel : enough_fuel this fuel.

(** One scale writes [scale_count] windows. *)
Lemma gen_scale_rule scales st j sz :
  scales !! Z.to_nat j = Some sz -> admissible this sz -> I st ->
  exists st',
    gen_scale this fuel scales st j = Some st'
    /\ I st'
    /\ snd st' = snd st + scale_count this sz.
Proof using Hvalid HI Hfuel.
  intros Hlook Ha Hst. unfold gen_scale. rewrite Hlook. cbn [default].
  pose proof (admissible_bounds this Hvalid sz Ha) as [Hw Hh].
  pose proof (admissible_steps this Hvalid sz Ha) as [Hsw Hsh].
  unfold enough_fuel in Hfuel. unfold scanAreaW, scanAreaH in Hw, Hh.
  destruct (gen_rows_rule this I HI (width sz) (height sz)
              (shift_step this (width sz)) (shift_step this (height sz))
              j fuel ltac:(lia) ltac:(lia)
              ltac:(unfold scanAreaW; lia) ltac:(unfold scanAreaW; lia)
              fuel scanAreaY st)
    as (st' & E & Ist & Hidx); unfold scanAreaY; try assumption; try lia.
  exists st'. split; [exact E|]. split; [assumption|].
  rewrite Hidx. unfold scale_count, axis_count, scanAreaH, scanAreaY.
  do 3 f_equal. lia.
Qed.

(** The loop over the scale indices, on a stretch [acc] of the array. *)
Lemma gen_scales_rule acc : forall pre post st,
  Forall (admissible this) acc -> I st ->
  exists st',
    gen_scales this fuel (pre ++ acc ++ post)
      (seqZ (Z.of_nat (length pre)) (Z.of_nat (length acc))) st = Some st'
    /\ I st'
    /\ snd st' = snd st + sum_counts this acc.
Proof using Hvalid HI Hfuel.
  induction acc as [|a acc IH]; intros pre post st Hacc Hst.
  - exists st. cbn. split; [reflexivity|]. split; [assumption|lia].
  - inversion Hacc as [|? ? Ha Hacc']; subst.
    rewrite seqZ_cons by (cbn [length]; lia). cbn [gen_scales].
    destruct (gen_scale_rule (pre ++ (a :: acc) ++ post) st
                (Z.of_nat (length pre)) a) as (st1 & E1 & Ist1 & Hidx1);
      try assumption.
    { rewrite Nat2Z.id. cbn [app]. apply list_lookup_middle. reflexivity. }
    rewrite E1.
    destruct (IH (pre ++ [a]) post st1 Hacc' Ist1) as (st' & E & Ist & Hidx).
    rewrite <- app_assoc in E. cbn [app] in E.
    rewrite length_app in E. cbn [length] in E.
    replace (Z.succ (Z.of_nat (length pre)))
      with (Z.of_nat (length pre + 1)) by lia.
    replace (Z.pred (Z.of_nat (length (a :: acc))))
      with (Z.of_nat (length acc)) by (cbn [length]; lia).
    exists st'. split; [exact E|]. split; [assumption|].
    rewrite Hidx, Hidx1. unfold sum_counts. cbn [foldr]. lia.
Qed.

(** Both passes: the second one writes exactly the number of windows the
    first one counted, and keeps [I]. *)
Lemma geometry_passes :
  I (replicate (Z.to_nat (TLD_WINDOW_SIZE * counted_windows this)) 0, 0) ->
  exists rest windows',
    count_pass this
    = Some (accepted_scales this ++ rest,
            Z.of_nat (length (accepted_scales this)),
            counted_windows this)
    /\ generation_pass this fuel (accepted_scales this ++ rest)
         (Z.of_nat (length (accepted_scales this))) (counted_windows this)
       = Some (windows', counted_windows this)
    /\ I (windows', counted_windows this).
Proof using Hvalid HI Hfuel.
  intros Hinit.
  destruct (count_pass_spec this Hvalid) as (rest & Hcount).
  destruct (gen_scales_rule (accepted_scales this) [] rest _
              (accepted_among_admissible this (exponents this)) Hinit)
    as ([windows' idx] & E & Ist & Hidx).
  cbn [snd app length Z.of_nat] in *.
  assert (idx = counted_windows this) by (unfold counted_windows; lia).
  subst idx.
  exists rest, windows'. split; [exact Hcount|]. split; [|exact Ist].
  unfold generation_pass. exact E.
Qed.
End Scales.

(** ** Window records in the buffer *)

Lemma write_window_length x y w h s buf idx :
  length (fst (write_window x y w h s (buf, idx))) = length buf.
Proof.
  cbn [write_window fst]. unfold tldCopyBoundaryToArray.
  rewrite !length_insert. reflexivity.
Qed.

Lemma write_window_earlier x y w h s buf idx i k :
  0 <= i < idx -> 0 <= k < 5 ->
  window_field (fst (write_window x y w h s (buf, idx))) i k
  = window_field buf i k.
Proof.
  intros Hi Hk. cbn [write_window fst].
  unfold window_field, tldCopyBoundaryToArray, TLD_WINDOW_SIZE.
  rewrite !list_lookup_insert_ne by lia. reflexivity.
Qed.

Lemma write_window_record x y w h s buf idx :
  0 <= idx -> (Z.to_nat (5 * idx + 4) < length buf)%nat ->
  let buf' := fst (write_window x y w h s (buf, idx)) in
  window_x buf' idx = x /\ window_y buf' idx = y /\ window_w buf' idx = w
  /\ window_h buf' idx = h /\ window_scale buf' idx = s.
Proof.
  intros Hidx Hlen. cbn [write_window fst].
  unfold window_x, window_y, window_w, window_h, window_scale, window_field,
    tldCopyBoundaryToArray, TLD_WINDOW_SIZE.
  replace (Z.to_nat (5 * idx + 0)) with (Z.to_nat (5 * idx)) by lia.
  replace (Z.to_nat (5 * idx + 1)) with (Z.to_nat (5 * idx) + 1)%nat by lia.
  replace (Z.to_nat (5 * idx + 2)) with (Z.to_nat (5 * idx) + 2)%nat by lia.
  replace (Z.to_nat (5 * idx + 3)) with (Z.to_nat (5 * idx) + 3)%nat by lia.
  replace (Z.to_nat (5 * idx + 4)) with (Z.to_nat (5 * idx) + 4)%nat in * by lia.
  repeat split.
  - rewrite !list_lookup_insert_ne by lia.
    rewrite list_lookup_insert_eq by lia. reflexivity.
  - rewrite !list_lookup_insert_ne by lia.
    rewrite list_lookup_insert_eq by (rewrite !length_insert; lia). reflexivity.
  - rewrite !list_lookup_insert_ne by lia.
    rewrite list_lookup_insert_eq by (rewrite !length_insert; lia). reflexivity.
  - rewrite !list_lookup_insert_ne by lia.
    rewrite list_lookup_insert_eq by (rewrite !length_insert; lia). reflexivity.
  - rewrite list_lookup_insert_eq by (rewrite !length_insert; lia). reflexivity.
Qed.

Lemma windows_inside_kept this len : kept_by_writes this (windows_inside this len).
Proof.
  intros x y w h s [buf idx] Hx Hy Hxw Hyh (Hlen & Hidx & Hrec).
  cbn [fst snd] in *. unfold windows_inside.
  rewrite write_window_length, write_window_index. cbn [snd].
  split; [assumption|]. split; [lia|].
  intros i Hi Hin.
  destruct (Z.eq_dec i idx) as [->|Hne].
  - destruct (write_window_record x y w h s buf idx Hidx ltac:(lia))
      as (Ex & Ey & Ew & Eh & _).
    unfold window_inside. rewrite Ex, Ey, Ew, Eh. lia.
  - specialize (Hrec i ltac:(lia) Hin).
    unfold window_inside, window_x, window_y, window_w, window_h in *.
    rewrite !write_window_earlier by lia. exact Hrec.
Qed.

(** ** [initWindowsAndScales] as a whole *)

Lemma initWindowsAndScales_rule this fuel (I : list Z * Z -> Prop) :
  valid_config this -> enough_fuel this fuel -> kept_by_writes this I ->
  I (replicate (Z.to_nat (TLD_WINDOW_SIZE * counted_windows this)) 0, 0) ->
  exists this' rest windows',
    initWindowsAndScales this fuel = Returns this'
    /\ numWindows this' = counted_windows this
    /\ numScales this' = Z.of_nat (length (accepted_scales this))
    /\ scales this' = Some (accepted_scales this ++ rest)
    /\ windows this' = Some windows'
    /\ I (windows', counted_windows this).
Proof.
  intros Hvalid Hfuel HI Hinit.
  destruct (geometry_passes this Hvalid I HI fuel Hfuel Hinit)
    as (rest & windows' & Hcount & Hgen & Ist).
  unfold initWindowsAndScales. rewrite Hcount, Hgen, Z.eqb_refl.
  eexists. exists rest, windows'. split; [reflexivity|]. cbn. tauto.
Qed.

(** C3.  The counting pass accumulates [numWindows] in single precision
    (line 208), and a [float] holds every integer only up to [2^24].  For
    a template of 25x25 in an image of 4200x4200, the single exponent 0
    and steps of 1, the sum of the claim is 4175 x 4175 = 17430625
    windows and the count comes out as 17430624.  The generation pass
    runs to its end with [windowIndex = 17430625]: the buffer, made for
    17430624 records, holds a window inside the image at each of them,
    one record more is written past its end, and the assertion of line
    250 fails. *)
Theorem counting_pass_misses_a_window :
  counted_windows template25_image4200 = 17430625
  /\ count_pass template25_image4200 = Some ([mkSize 25 25], 1, 17430624)
  /\ (exists windows',
        generation_pass template25_image4200 4200 [mkSize 25 25] 1 17430624
        = Some (windows', 17430625)
        /\ Z.of_nat (length windows') = TLD_WINDOW_SIZE * 17430624
        /\ forall i, 0 <= i < 17430624 ->
             window_inside template25_image4200 windows' i)
  /\ initWindowsAndScales template25_image4200 4200 = AssertionFailed.
Proof.
  assert (Hcount : count_pass template25_image4200
                   = Some ([mkSize 25 25], 1, 17430624))
    by (vm_compute; reflexivity).
  assert (Hgen : exists windows',
             generation_pass template25_image4200 4200 [mkSize 25 25] 1 17430624
             = Some (windows', 17430625)
             /\ Z.of_nat (length windows') = TLD_WINDOW_SIZE * 17430624
             /\ forall i, 0 <= i < 17430624 ->
                  window_inside template25_image4200 windows' i).
  { unfold generation_pass.
    set (len := Z.to_nat (TLD_WINDOW_SIZE * 17430624)).
    assert (Hlen : Z.of_nat len = TLD_WINDOW_SIZE * 17430624)
      by (unfold len, TLD_WINDOW_SIZE; lia).
    assert (Hinit : windows_inside template25_image4200 len
                      (replicate len 0, 0)).
    { unfold windows_inside. cbn [fst snd]. rewrite length_replicate.
      split; [reflexivity|]. split; [lia|]. intros i Hi. lia. }
    clearbody len.
    change (seqZ 0 1) with [0]. cbn [gen_scales].
    change (gen_scale template25_image4200 4200 [mkSize 25 25]
              (replicate len 0, 0) 0)
      with (gen_rows template25_image4200 4200 4200 25 25 1 1 0 1
              (replicate len 0, 0)).
    destruct (gen_rows_rule template25_image4200
                (windows_inside template25_image4200 len)
                (windows_inside_kept template25_image4200 len)
                25 25 1 1 0 4200 ltac:(lia) ltac:(lia)
                ltac:(vm_compute; congruence) ltac:(vm_compute; lia)
                4200 1 (replicate len 0, 0) ltac:(lia)
                ltac:(vm_compute; congruence)
                ltac:(vm_compute; lia) Hinit)
      as ([windows' idx] & E & (Hl & _ & Hrec) & Hidx).
    rewrite E. exists windows'. cbn [fst snd] in *.
    assert (idx = 17430625) as ->
      by (rewrite Hidx; vm_compute; reflexivity).
    split; [reflexivity|]. split; [rewrite Hl; exact Hlen|].
    intros i Hi. apply Hrec; [lia|].
    unfold TLD_WINDOW_SIZE in Hlen. lia. }
  split; [vm_compute; reflexivity|]. split; [exact Hcount|].
  split; [exact Hgen|].
  destruct Hgen as (windows' & Hgen & _).
  unfold initWindowsAndScales. rewrite Hcount, Hgen. reflexivity.
Qed.

Lemma template25_image30_valid : valid_config template25_image30.
Proof. unfold valid_config. vm_compute. repeat split; congruence. Qed.

(** C4 (as amended).  For every valid configuration [initWindowsAndScales]
    returns, and every window record [i] below [numWindows] of the buffer
    it fills satisfies [x >= 1], [y >= 1], [x + w <= imgWidth] and
    [y + h <= imgHeight]. *)
Theorem generated_windows_inside_image this fuel :
  valid_config this -> enough_fuel this fuel ->
  exists this' windows',
    initWindowsAndScales this fuel = Returns this'
    /\ windows this' = Some windows'
    /\ length windows' = Z.to_nat (TLD_WINDOW_SIZE * numWindows this')
    /\ forall i, 0 <= i < numWindows this' -> window_inside this windows' i.
Proof.
  intros Hvalid Hfuel.
  set (len := Z.to_nat (TLD_WINDOW_SIZE * counted_windows this)).
  destruct (initWindowsAndScales_rule this fuel (windows_inside this len)
              Hvalid Hfuel (windows_inside_kept this len))
    as (this' & rest & windows' & Hret & Hnum & _ & _ & Hwin & Hlen & _ & Hrec).
  { unfold windows_inside. cbn [fst snd]. rewrite length_replicate.
    split; [reflexivity|]. split; [lia|]. intros i Hi. lia. }
  cbn [fst snd] in *.
  exists this', windows'. rewrite Hnum.
  split; [exact Hret|]. split; [exact Hwin|]. split; [exact Hlen|].
  intros i Hi. apply Hrec; [assumption|].
  unfold len, TLD_WINDOW_SIZE. lia.
Qed.

Lemma generated_windows_inside_image_witness :
  exists this' windows',
    initWindowsAndScales template25_image30 30 = Returns this'
    /\ windows this' = Some windows'
    /\ length windows' = Z.to_nat (TLD_WINDOW_SIZE * numWindows this')
    /\ forall i, 0 <= i < numWindows this' ->
         window_inside template25_image30 windows' i.
Proof.
  apply (generated_windows_inside_image template25_image30 30).
  - unfold valid_config. vm_compute. repeat split; congruence.
  - unfold enough_fuel. cbn. lia.
Defined.

(** C4, counterexample.  Template 25x25 in a 30x30 image is a valid
    configuration; the third window of the first row is [(5, 1, 25, 25)],
    whose far corner [x + w = 30] exceeds [imgWidth - 1 = 29]. *)
Lemma every_window_inset_fails :
  valid_config template25_image30
  /\ ~ every_window_inset template25_image30 30.
Proof.
  split; [exact template25_image30_valid|].
  intros H.
  specialize (H (returned (initWindowsAndScales template25_image30 30) blank)
                [1; 1; 25; 25; 0; 3; 1; 25; 25; 0; 5; 1; 25; 25; 0;
                 1; 3; 25; 25; 0; 3; 3; 25; 25; 0; 5; 3; 25; 25; 0;
                 1; 5; 25; 25; 0; 3; 5; 25; 25; 0; 5; 5; 25; 25; 0]
                2).
  assert (Hbad : window_inset template25_image30
                   [1; 1; 25; 25; 0; 3; 1; 25; 25; 0; 5; 1; 25; 25; 0;
                    1; 3; 25; 25; 0; 3; 3; 25; 25; 0; 5; 3; 25; 25; 0;
                    1; 5; 25; 25; 0; 3; 5; 25; 25; 0; 5; 5; 25; 25; 0] 2).
  { apply H.
    - vm_compute. reflexivity.
    - vm_compute. reflexivity.
    - vm_compute. split; [discriminate | reflexivity]. }
  destruct Hbad as (_ & _ & Hx & _). vm_compute in Hx. apply Hx. reflexivity.
Qed.

(** C5 (as amended).  With template 24x24, image 100x100 (stride 100),
    exponents [-1, 1], shift ratio 0.1 and minSize 25, the enumeration
    rejects exponent -1 ([w = h = 20]) and exponent 0 ([w = h = 24]), both
    below minSize, accepts exponent 1 with [w = h = 28], and stores one
    scale. *)
Theorem example_enumeration :
  minSize template24_image100 = 25
  /\ candidate template24_image100 (-1) = mkSize 20 20
  /\ ~ admissible template24_image100 (mkSize 20 20)
  /\ candidate template24_image100 0 = mkSize 24 24
  /\ ~ admissible template24_image100 (mkSize 24 24)
  /\ candidate template24_image100 1 = mkSize 28 28
  /\ admissible template24_image100 (mkSize 28 28)
  /\ stored_scales template24_image100 = [mkSize 28 28]
  /\ stored_numScales template24_image100 = 1.
Proof.
  repeat split; try (vm_compute; reflexivity); vm_compute; discriminate.
Qed.

(** The factor for exponent 1 is the [float] next to 1.2, and 24 times it
    is the [float] 28.8000011..., which truncates to 28. *)
Example scale_of_exponent_one :
  F32.of_double (F64.pow (F64.literal (12 # 10)) 1)
  = IEEE.Finite (5033165 # 4194304)
  /\ F32.mul (F32.of_Z 24) (IEEE.Finite (5033165 # 4194304))
     = IEEE.Finite (15099495 # 524288)
  /\ IEEE.to_int (IEEE.Finite (15099495 # 524288)) = 28.
Proof. repeat split; vm_compute; reflexivity. Qed.

(** C5, counterexample.  The enumeration is not the one the example
    tells: exponent 0 gives 24, below minSize 25, and exponent 1 gives
    [(int)(24 * 1.2f) = 28], so one scale is stored, not two. *)
Lemma example_enumeration_as_told_fails : ~ example_enumeration_as_told.
Proof.
  intros (_ & _ & _ & _ & _ & _ & _ & H). vm_compute in H. discriminate.
Qed.

(** ** The offset table *)

Lemma offsets_step_filled this ws n k st :
  (k < n)%nat -> offsets_filled this ws n k st ->
  offsets_filled this ws n (S k) (offsets_step this ws st (Z.of_nat k)).
Proof.
  destruct st as [out off]. intros Hk (Hoff & Hlen & Hrec).
  cbn [fst snd] in *. subst off.
  unfold offsets_filled, offsets_step. cbn [fst snd].
  split; [lia|]. split; [rewrite !length_insert; exact Hlen|].
  intros i j Hi Hj.
  destruct (Nat.eq_dec i k) as [->|Hne].
  - unfold offset_record, window_x, window_y, window_w, window_h, window_scale.
    rewrite (Nat.add_comm (6 * k) j).
    destruct j as [|[|[|[|[|[|j]]]]]]; try lia; cbn [lookup list_lookup Nat.add];
      rewrite ?list_lookup_insert_ne by lia;
      rewrite list_lookup_insert_eq by (rewrite ?length_insert; lia);
      reflexivity.
  - rewrite !list_lookup_insert_ne by lia. apply Hrec; lia.
Qed.

Lemma offsets_fold this ws n (k : nat) :
  (k <= n)%nat ->
  offsets_filled this ws n k
    (foldl (offsets_step this ws) (replicate (6 * n) 0, 0%nat)
       (seqZ 0 (Z.of_nat k))).
Proof.
  induction k as [|k IH]; intros Hk.
  - rewrite seqZ_nil by lia. cbn [foldl].
    unfold offsets_filled. cbn [fst snd]. rewrite length_replicate.
    split; [reflexivity|]. split; [reflexivity|]. intros i j Hi. lia.
  - rewrite seqZ_S, foldl_snoc. cbn [Z.add].
    apply offsets_step_filled; [lia|]. apply IH. lia.
Qed.

(** [int] arithmetic on values whose result fits. *)
Lemma wrap_int_fits z : fits_int z -> wrap_int z = z.
Proof.
  unfold fits_int, wrap_int. intros Hz.
  rewrite Z.mod_small by lia. lia.
Qed.

Lemma int_add_fits a b : fits_int (a + b) -> int_add a b = a + b.
Proof. apply wrap_int_fits. Qed.

Lemma int_sub_fits a b : fits_int (a - b) -> int_sub a b = a - b.
Proof. apply wrap_int_fits. Qed.

Lemma int_mul_fits a b : fits_int (a * b) -> int_mul a b = a * b.
Proof. apply wrap_int_fits. Qed.

Lemma sub2idx_fits x y widthStep :
  fits_int (y * widthStep + x) -> sub2idx x y widthStep = y * widthStep + x.
Proof.
  unfold fits_int, sub2idx. intros Hz. apply IEEE_facts.to_int_Z. exact Hz.
Qed.

Lemma offsets_table_records this ws :
  windows this = Some ws -> 0 <= numWindows this ->
  Z.of_nat (length (offsets_table this)) = 6 * numWindows this
  /\ forall i, 0 <= i < numWindows this ->
       forall j : nat, (j < 6)%nat ->
         offset_field (offsets_table this) i (Z.of_nat j)
         = offset_record this ws i !! j.
Proof.
  intros Hws Hn. unfold offsets_table, TLD_WINDOW_OFFSET_SIZE.
  rewrite Hws. change (default [] (Some ws)) with ws.
  pose proof (offsets_fold this ws (Z.to_nat (numWindows this))
                (Z.to_nat (numWindows this)) ltac:(lia)) as (_ & Hlen & Hrec).
  rewrite Z2Nat.id in * by lia.
  replace (Z.to_nat (6 * numWindows this))
    with (6 * Z.to_nat (numWindows this))%nat by lia.
  split; [rewrite Hlen; lia|].
  intros i Hi j Hj. unfold offset_field, TLD_WINDOW_OFFSET_SIZE.
  replace (Z.to_nat (6 * i + Z.of_nat j))
    with (6 * Z.to_nat i + j)%nat by lia.
  rewrite Hrec by lia. rewrite Z2Nat.id by lia. reflexivity.
Qed.




(** ** Life cycle *)

(** C9.  Right after construction the cascade is uninitialised: the flag
    is false, the device window buffer pointer is null, the five
    dimensions hold -1, and the rest of the configuration holds its
    defaults: shift 0.1 (as a [float]), proportional shift on, exponents
    [-10, 10], minSize 25, 13 trees, 10 features. *)
Theorem constructed_state raw :
  let this := CuDetectorCascade_new raw in
  initialised this = false
  /\ windows_d this = None
  /\ objWidth this = -1 /\ objHeight this = -1
  /\ imgWidth this = -1 /\ imgHeight this = -1 /\ imgWidthStep this = -1
  /\ shift this = F32.of_double (F64.literal (1 # 10))
  /\ shift this = IEEE.Finite (13421773 # 134217728)
  /\ useShift this = true
  /\ minScale this = -10 /\ maxScale this = 10
  /\ minSize this = 25
  /\ numTrees this = 13 /\ numFeatures this = 10.
Proof.
  cbn [CuDetectorCascade_new initialised windows_d objWidth objHeight imgWidth
         imgHeight imgWidthStep shift useShift minScale maxScale minSize
         numTrees numFeatures].
  repeat split.
Qed.

(** C2, at the failing input.  [init] on a freshly constructed cascade,
    all five dimensions still -1: the test for unset dimensions is made
    and nothing follows from it; both geometry passes run on the sentinel
    values, empty buffers are allocated and the cascade is marked
    initialised. *)
Theorem init_proceeds_with_unset_dimensions fuel :
  dimensions_unset fresh = true
  /\ exists this',
       init fuel fresh = Returns this'
       /\ initialised this' = true
       /\ numScales this' = 0 /\ numWindows this' = 0
       /\ windows this' = Some [] /\ windowOffsets this' = Some []
       /\ calls this'
          = [cudaMalloc 0; cudaMemcpy 0; DetectionResult_init 0 13;
             EnsembleClassifier_init].
Proof.
  split; [reflexivity|].
  eexists. split; [vm_compute; reflexivity|].
  cbn. repeat split.
Qed.

(** C8.  [release] on an uninitialised cascade returns it unchanged, and a
    second [release] right after a first changes nothing. *)
Theorem release_idempotent this :
  (initialised this = false -> release this = this)
  /\ initialised (release this) = false
  /\ release (release this) = release this.
Proof.
  assert (H1 : initialised this = false -> release this = this).
  { intros H. unfold release. rewrite H. reflexivity. }
  assert (H2 : initialised (release this) = false).
  { unfold release. destruct (initialised this) eqn:E; cbn; [reflexivity|exact E]. }
  split; [exact H1|]. split; [exact H2|].
  unfold release at 1. rewrite H2. reflexivity.
Qed.

Lemma release_idempotent_witness :
  initialised fresh = false
  /\ release fresh = fresh
  /\ release (release ready30) = release ready30.
Proof.
  split; [reflexivity|]. split.
  - apply (proj1 (release_idempotent fresh)). reflexivity.
  - apply (release_idempotent ready30).
Defined.

(** C10.  [release] on an initialised cascade sets the template size back
    to -1 and leaves the image size, the stride and the rest of the
    configuration as they were; once the template size is assigned again
    no dimension is unset, and with the former template size the counting
    pass of a second [init] gives what it gave before. *)
Theorem release_keeps_configuration this :
  initialised this = true ->
  let this' := release this in
  initialised this' = false
  /\ objWidth this' = -1 /\ objHeight this' = -1
  /\ imgWidth this' = imgWidth this /\ imgHeight this' = imgHeight this
  /\ imgWidthStep this' = imgWidthStep this
  /\ minScale this' = minScale this /\ maxScale this' = maxScale this
  /\ minSize this' = minSize this
  /\ useShift this' = useShift this /\ shift this' = shift this
  /\ numFeatures this' = numFeatures this /\ numTrees this' = numTrees this
  /\ (forall w h, w <> -1 -> h <> -1 -> dimensions_unset this = false ->
       dimensions_unset (set_template w h this') = false)
  /\ count_pass (set_template (objWidth this) (objHeight this) this')
     = count_pass this.
Proof.
  intros Hinit. unfold release. rewrite Hinit. cbn.
  repeat split.
  intros w h Hw Hh Hset. unfold dimensions_unset in *. cbn.
  apply orb_false_elim in Hset as [Hset _].
  apply orb_false_elim in Hset as [Hset _].
  rewrite Hset.
  apply Z.eqb_neq in Hw, Hh. rewrite Hw, Hh. reflexivity.
Qed.

Lemma ready30_initialised : initialised ready30 = true.
Proof. vm_compute. reflexivity. Qed.

Lemma release_keeps_configuration_witness :
  let this' := release ready30 in
  initialised this' = false
  /\ objWidth this' = -1 /\ objHeight this' = -1
  /\ imgWidth this' = imgWidth ready30 /\ imgHeight this' = imgHeight ready30
  /\ imgWidthStep this' = imgWidthStep ready30
  /\ minScale this' = minScale ready30 /\ maxScale this' = maxScale ready30
  /\ minSize this' = minSize ready30
  /\ useShift this' = useShift ready30 /\ shift this' = shift ready30
  /\ numFeatures this' = numFeatures ready30 /\ numTrees this' = numTrees ready30
  /\ (forall w h, w <> -1 -> h <> -1 -> dimensions_unset ready30 = false ->
       dimensions_unset (set_template w h this') = false)
  /\ count_pass (set_template (objWidth ready30) (objHeight ready30) this')
     = count_pass ready30.
Proof.
  apply (release_keeps_configuration ready30). vm_compute. reflexivity.
Defined.

(** ** Detection *)

Section Detection_facts.
Variable Mat : Type.
Variable variance_filter : CuVarianceFilter -> Mat -> list Z -> Z -> list Z.

(** C7.  [detect] on an uninitialised cascade returns at once: the
    cascade is unchanged, so the validity flag stays as it was, false if
    it was false, and no call is made. *)
Theorem detect_uninitialised_noop this img :
  initialised this = false ->
  detect Mat variance_filter this img = this
  /\ calls (detect Mat variance_filter this img) = calls this
  /\ (containsValidData (detectionResult this) = false ->
      containsValidData
        (detectionResult (detect Mat variance_filter this img)) = false).
Proof using Type.
  intros H. unfold detect. rewrite H. cbn. tauto.
Qed.

(** What [detect] does on an initialised cascade: it resets the detection
    result, creates the full index array, runs the variance filter on it,
    then runs clustering and marks the detection result valid; it calls
    neither per-window test, and the cascade stays initialised. *)
Lemma detect_calls_initialised this img :
  initialised this = true ->
  detect_calls Mat variance_filter this img
  = [DetectionResult_reset;
     createIndexArray_call (numWindows this);
     CuVarianceFilter_filter (numWindows this)
       (variance_survivors Mat variance_filter this img);
     Clustering_clusterConfidentIndices].
Proof using Type.
  intros H. unfold detect_calls, detect. rewrite H. cbn [negb with_detection calls].
  apply drop_app_length.
Qed.

Lemma detect_initialised this img :
  initialised this = true ->
  calls (detect Mat variance_filter this img)
  = calls this ++ detect_calls Mat variance_filter this img
  /\ (forall i,
        ~ elem_of (EnsembleClassifier_filter i)
            (detect_calls Mat variance_filter this img)
        /\ ~ elem_of (NNClassifier_filter i)
              (detect_calls Mat variance_filter this img))
  /\ containsValidData
       (detectionResult (detect Mat variance_filter this img)) = true
  /\ initialised (detect Mat variance_filter this img) = true.
Proof using Type.
  intros H. rewrite (detect_calls_initialised this img H).
  unfold detect. rewrite H. cbn [negb with_detection calls detectionResult
                                   containsValidData initialised].
  split; [reflexivity|]. split; [|split; [reflexivity | exact H]].
  intros i. split; intros Hin;
    repeat (apply elem_of_cons in Hin as [Hin|Hin]; [discriminate|]);
    apply elem_of_nil in Hin; exact Hin.
Qed.
End Detection_facts.

Lemma detect_uninitialised_noop_witness :
  detect unit keep_all fresh tt = fresh
  /\ calls (detect unit keep_all fresh tt) = calls fresh
  /\ (containsValidData (detectionResult fresh) = false ->
      containsValidData (detectionResult (detect unit keep_all fresh tt)) = false).
Proof.
  apply (detect_uninitialised_noop unit keep_all fresh tt). reflexivity.
Defined.

(** C1, at the failing input.  On the initialised cascade [ready30] (nine
    windows), with a variance filter that keeps every window, [detect]
    makes four calls: reset, index array, variance filter, clustering.
    All nine windows survive the variance filter, neither per-window test
    is called on any of them, and the calls differ from those of the pass
    the specification describes. *)
Theorem detect_skips_per_window_stages :
  initialised ready30 = true
  /\ variance_survivors unit keep_all ready30 tt = [0; 1; 2; 3; 4; 5; 6; 7; 8]
  /\ detect_calls unit keep_all ready30 tt
     = [DetectionResult_reset;
        createIndexArray_call 9;
        CuVarianceFilter_filter 9 [0; 1; 2; 3; 4; 5; 6; 7; 8];
        Clustering_clusterConfidentIndices]
  /\ ~ per_window_stages_run unit keep_all accept_all ready30 tt
  /\ calls (detect unit keep_all ready30 tt)
     <> calls (runDetectionPass_spec unit keep_all accept_all ready30 tt).
Proof.
  split; [exact ready30_initialised|].
  split; [vm_compute; reflexivity|].
  split; [vm_compute; reflexivity|].
  split.
  - intros H. destruct (H 0) as [Hin _].
    + apply elem_of_seqZ. vm_compute. split; [discriminate | reflexivity].
    + rewrite (detect_calls_initialised unit keep_all ready30 tt ready30_initialised)
        in Hin.
      repeat (apply elem_of_cons in Hin as [Hin|Hin]; [discriminate|]).
      apply elem_of_nil in Hin. exact Hin.
  - vm_compute. discriminate.
Qed.

(* ================================================================== *)
(** * Part III: the window grid, the lifecycle and detection *)
(* ================================================================== *)

(** ** The scale array, for any configuration *)

Lemma admissible_within_limits this sz :
  admissible this sz <-> within_limits this sz.
Proof.
  unfold admissible, within_limits, rejected, scanAreaW, scanAreaH.
  rewrite !orb_false_iff, !Z.ltb_ge, !Z.gtb_ltb, !Z.ltb_ge. lia.
Qed.





(** ** The window buffer, record by record *)

Lemma map_seqZ_shift {A} (f : Z -> A) (n : nat) : forall m,
  map f (seqZ (m + 1) (Z.of_nat n)) = map (fun c => f (c + 1)) (seqZ m (Z.of_nat n)).
Proof.
  induction n as [|n IH]; intros m.
  - rewrite !seqZ_nil by lia. reflexivity.
  - rewrite !(seqZ_cons _ (Z.of_nat (S n))) by lia. cbn [map].
    replace (Z.pred (Z.of_nat (S n))) with (Z.of_nat n) by lia.
    f_equal. replace (Z.succ (m + 1)) with (Z.succ m + 1) by lia. apply IH.
Qed.

Lemma map_seqZ_succ {A} (f : Z -> A) n :
  0 <= n ->
  map f (seqZ 0 (n + 1)) = f 0 :: map (fun c => f (c + 1)) (seqZ 0 n).
Proof.
  intros Hn. rewrite seqZ_cons by lia. cbn [map]. f_equal.
  replace (Z.pred (n + 1)) with (Z.of_nat (Z.to_nat n)) by lia.
  replace n with (Z.of_nat (Z.to_nat n)) at 2 by lia.
  apply (map_seqZ_shift f (Z.to_nat n) 0).
Qed.

Lemma flat_map_seqZ_succ {A} (f : Z -> list A) n :
  0 <= n ->
  flat_map f (seqZ 0 (n + 1)) = f 0 ++ flat_map (fun c => f (c + 1)) (seqZ 0 n).
Proof.
  intros Hn. rewrite !flat_map_concat_map, map_seqZ_succ by assumption.
  reflexivity.
Qed.

Lemma concat_records_length recs :
  Forall is_record recs -> length (concat recs) = (5 * length recs)%nat.
Proof.
  induction 1 as [|r recs Hr _ IH]; [reflexivity|].
  cbn [concat length]. rewrite length_app, IH, Hr. lia.
Qed.

(** One write appends one record. *)
Lemma write_window_filled recs R x y w h s :
  Forall is_record recs -> 0 < R ->
  write_window x y w h s (filled recs R)
  = filled (recs ++ [[x; y; w; h; s]]) (R - 1).
Proof.
  intros Hrecs HR. unfold filled, write_window, tldCopyBoundaryToArray,
    TLD_WINDOW_SIZE.
  pose proof (concat_records_length recs Hrecs) as Hlen.
  replace (Z.to_nat (5 * Z.of_nat (length recs)))
    with (length (concat recs)) by lia.
  replace (Z.to_nat (5 * R))
    with (S (S (S (S (S (Z.to_nat (5 * (R - 1)))))))) by lia.
  cbn [replicate].
  rewrite !insert_app_r_alt by (rewrite ?length_insert; lia).
  replace (length (concat recs) - length (concat recs))%nat with 0%nat by lia.
  replace (length (concat recs) + 1 - length (concat recs))%nat with 1%nat by lia.
  replace (length (concat recs) + 2 - length (concat recs))%nat with 2%nat by lia.
  replace (length (concat recs) + 3 - length (concat recs))%nat with 3%nat by lia.
  replace (length (concat recs) + 4 - length (concat recs))%nat with 4%nat by lia.
  cbn [insert list_insert].
  rewrite concat_app. cbn [concat]. rewrite app_nil_r, <- app_assoc.
  cbn [app]. rewrite length_app. cbn [length].
  f_equal. lia.
Qed.

Section Grid.
Variable this : CuDetectorCascade.

Lemma gen_columns_filled w h ssw s y :
  1 <= ssw ->
  forall fuel x recs R,
    Forall is_record recs ->
    0 <= imgWidth this - w - x + ssw ->
    (Z.to_nat (imgWidth this - w - x + ssw) <= fuel)%nat ->
    (imgWidth this - w - x + ssw) / ssw <= R ->
    gen_columns this fuel w h ssw s y x (filled recs R)
    = Some (filled
              (recs ++ map (fun c => [x + c * ssw; y; w; h; s])
                         (seqZ 0 ((imgWidth this - w - x + ssw) / ssw)))
              (R - (imgWidth this - w - x + ssw) / ssw)).
Proof using Type.
  intros Hssw.
  induction fuel as [|fuel IH]; intros x recs R Hrecs Hrem Hfuel HR;
    cbn [gen_columns]; unfold scanAreaX, scanAreaW;
    destruct (x + w <=? 1 + (imgWidth this - 1)) eqn:G;
    try (apply Z.leb_le in G); try (apply Z.leb_gt in G).
  - lia.
  - rewrite Z.div_small by lia. rewrite seqZ_nil by lia. cbn [map].
    rewrite app_nil_r, Z.sub_0_r. reflexivity.
  - assert (Hcnt : (imgWidth this - w - x + ssw) / ssw
                   = (imgWidth this - w - (x + ssw) + ssw) / ssw + 1).
    { replace (imgWidth this - w - x + ssw)
        with (imgWidth this - w - (x + ssw) + ssw + 1 * ssw) by lia.
      rewrite Z.div_add by lia. lia. }
    assert (Hc0 : 0 <= (imgWidth this - w - (x + ssw) + ssw) / ssw)
      by (apply Z.div_pos; lia).
    rewrite write_window_filled by (try assumption; lia).
    rewrite IH.
    + rewrite Hcnt. rewrite map_seqZ_succ by assumption.
      set (cnt := (imgWidth this - w - (x + ssw) + ssw) / ssw) in *.
      replace (R - (cnt + 1)) with (R - 1 - cnt) by lia.
      rewrite <- app_assoc. cbn [app].
      replace (x + 0 * ssw) with x by lia.
      rewrite (map_ext (fun c => [x + (c + 1) * ssw; y; w; h; s])
                 (fun c => [x + ssw + c * ssw; y; w; h; s]))
        by (intros c; f_equal; lia).
      reflexivity.
    + apply Forall_app. split; [assumption|]. repeat constructor.
    + lia.
    + lia.
    + lia.
  - rewrite Z.div_small by lia. rewrite seqZ_nil by lia. cbn [map].
    rewrite app_nil_r, Z.sub_0_r. reflexivity.
Qed.
End Grid.

Lemma map_records_are_records {A} (f : A -> list Z) (l : list A) :
  (forall a, is_record (f a)) -> Forall is_record (map f l).
Proof.
  intros Hf. induction l as [|a l IH]; cbn [map]; constructor; auto.
Qed.

Lemma flat_map_records_are_records {A} (f : A -> list (list Z)) (l : list A) :
  (forall a, Forall is_record (f a)) -> Forall is_record (flat_map f l).
Proof.
  intros Hf. induction l as [|a l IH]; cbn [flat_map]; [constructor|].
  apply Forall_app. split; auto.
Qed.

Section Grid_rows.
Variable this : CuDetectorCascade.

Lemma gen_rows_filled w h ssw ssh s fuel_x :
  1 <= ssw -> 1 <= ssh -> 0 <= scanAreaW this - w + ssw ->
  (Z.to_nat (scanAreaW this - w + ssw) <= fuel_x)%nat ->
  forall fuel y recs R,
    Forall is_record recs ->
    0 <= imgHeight this - h - y + ssh ->
    (Z.to_nat (imgHeight this - h - y + ssh) <= fuel)%nat ->
    axis_count (scanAreaW this) w ssw
      * ((imgHeight this - h - y + ssh) / ssh) <= R ->
    gen_rows this fuel fuel_x w h ssw ssh s y (filled recs R)
    = Some (filled
              (recs ++ flat_map
                         (fun r => map (fun c => [1 + c * ssw; y + r * ssh; w; h; s])
                                     (seqZ 0 (axis_count (scanAreaW this) w ssw)))
                         (seqZ 0 ((imgHeight this - h - y + ssh) / ssh)))
              (R - axis_count (scanAreaW this) w ssw
                   * ((imgHeight this - h - y + ssh) / ssh))).
Proof using Type.
  intros Hssw Hssh Hw Hfx.
  assert (Hcx : 0 <= axis_count (scanAreaW this) w ssw)
    by (apply Z.div_pos; lia).
  induction fuel as [|fuel IH]; intros y recs R Hrecs Hrem Hfuel HR;
    cbn [gen_rows]; unfold scanAreaY, scanAreaH;
    destruct (y + h <=? 1 + (imgHeight this - 1)) eqn:G;
    try (apply Z.leb_le in G); try (apply Z.leb_gt in G).
  - lia.
  - rewrite Z.div_small by lia. rewrite (seqZ_nil 0 0) by lia. cbn [flat_map].
    rewrite app_nil_r, Z.mul_0_r, Z.sub_0_r. reflexivity.
  - assert (Hcnt : (imgHeight this - h - y + ssh) / ssh
                   = (imgHeight this - h - (y + ssh) + ssh) / ssh + 1).
    { replace (imgHeight this - h - y + ssh)
        with (imgHeight this - h - (y + ssh) + ssh + 1 * ssh) by lia.
      rewrite Z.div_add by lia. lia. }
    assert (Hc0 : 0 <= (imgHeight this - h - (y + ssh) + ssh) / ssh)
      by (apply Z.div_pos; lia).
    set (cy := (imgHeight this - h - (y + ssh) + ssh) / ssh) in *.
    rewrite Hcnt in *.
    unfold scanAreaW, scanAreaX in *.
    rewrite (gen_columns_filled this w h ssw s y Hssw); try assumption; try lia.
    + replace (imgWidth this - w - 1 + ssw) with (imgWidth this - 1 - w + ssw) by lia.
      fold (axis_count (imgWidth this - 1) w ssw) in *.
      set (cx := axis_count (imgWidth this - 1) w ssw) in *.
      rewrite IH.
      * rewrite flat_map_seqZ_succ by assumption.
        rewrite <- app_assoc.
        replace (y + 0 * ssh) with y by lia.
        replace (R - cx * (cy + 1)) with (R - cx - cx * cy) by lia.
        do 4 f_equal. apply flat_map_ext. intros r.
        apply map_ext. intros c. do 2 f_equal. lia.
      * apply Forall_app. split; [assumption|].
        apply map_records_are_records. intros c. reflexivity.
      * lia.
      * lia.
      * nia.
    + replace (imgWidth this - w - 1 + ssw) with (imgWidth this - 1 - w + ssw) by lia.
      fold (axis_count (imgWidth this - 1) w ssw). nia.
  - rewrite Z.div_small by lia. rewrite (seqZ_nil 0 0) by lia. cbn [flat_map].
    rewrite app_nil_r, Z.mul_0_r, Z.sub_0_r. reflexivity.
Qed.
End Grid_rows.

Lemma row_records_are_records this s sz r : Forall is_record (row_records this s sz r).
Proof. apply map_records_are_records. intros c. reflexivity. Qed.

Lemma scale_records_are_records this s sz : Forall is_record (scale_records this s sz).
Proof.
  apply flat_map_records_are_records. intros r. apply row_records_are_records.
Qed.

Lemma scales_records_are_records this l : forall s,
  Forall is_record (scales_records this s l).
Proof.
  induction l as [|sz l IH]; intros s; cbn [scales_records]; [constructor|].
  apply Forall_app. split; [apply scale_records_are_records | apply IH].
Qed.

Section Grid_scales.
Variable this : CuDetectorCascade.
Hypothesis Hvalid : valid_config this.
Variable fuel : nat.
Hypothesis Hfuel : enough_fuel this fuel.

Lemma gen_scale_filled scales recs R j sz :
  scales !! Z.to_nat j = Some sz -> admissible this sz ->
  Forall is_record recs -> scale_count this sz <= R ->
  gen_scale this fuel scales (filled recs R) j
  = Some (filled (recs ++ scale_records this j sz) (R - scale_count this sz)).
Proof using Hvalid Hfuel.
  intros Hlook Ha Hrecs HR. unfold gen_scale. rewrite Hlook. cbn [default].
  pose proof (admissible_bounds this Hvalid sz Ha) as [Hw Hh].
  pose proof (admissible_steps this Hvalid sz Ha) as [Hsw Hsh].
  unfold enough_fuel in Hfuel. unfold scanAreaW, scanAreaH in Hw, Hh.
  unfold scale_count in *. unfold scanAreaY.
  assert (Hy : imgHeight this - height sz - 1 + shift_step this (height sz)
               = scanAreaH this - height sz + shift_step this (height sz))
    by (unfold scanAreaH; lia).
  rewrite (gen_rows_filled this (width sz) (height sz)
             (shift_step this (width sz)) (shift_step this (height sz)) j fuel);
    unfold scanAreaW in *; try assumption; try lia.
  - rewrite Hy. fold (axis_count (scanAreaH this) (height sz)
                        (shift_step this (height sz))).
    reflexivity.
  - rewrite Hy. fold (axis_count (scanAreaH this) (height sz)
                        (shift_step this (height sz))).
    exact HR.
Qed.

Lemma gen_scales_filled acc : forall pre post recs R,
  Forall (admissible this) acc -> Forall is_record recs ->
  sum_counts this acc <= R ->
  gen_scales this fuel (pre ++ acc ++ post)
    (seqZ (Z.of_nat (length pre)) (Z.of_nat (length acc))) (filled recs R)
  = Some (filled (recs ++ scales_records this (Z.of_nat (length pre)) acc)
            (R - sum_counts this acc)).
Proof using Hvalid Hfuel.
  induction acc as [|a acc IH]; intros pre post recs R Hacc Hrecs HR.
  - cbn. rewrite app_nil_r, Z.sub_0_r. reflexivity.
  - inversion Hacc as [|? ? Ha Hacc']; subst.
    pose proof (sum_counts_bounds this Hvalid acc Hacc') as Hsum.
    unfold sum_counts in HR. cbn [foldr] in HR. fold (sum_counts this acc) in HR.
    rewrite seqZ_cons by (cbn [length]; lia). cbn [gen_scales].
    rewrite (gen_scale_filled _ recs R (Z.of_nat (length pre)) a);
      try assumption; try lia.
    2:{ rewrite Nat2Z.id. cbn [app]. apply list_lookup_middle. reflexivity. }
    pose proof (IH (pre ++ [a]) post (recs ++ scale_records this (Z.of_nat (length pre)) a)
                  (R - scale_count this a) Hacc') as E.
    rewrite <- app_assoc in E. cbn [app] in E.
    rewrite length_app in E. cbn [length] in E.
    replace (Z.succ (Z.of_nat (length pre)))
      with (Z.of_nat (length pre + 1)) by lia.
    replace (Z.pred (Z.of_nat (length (a :: acc))))
      with (Z.of_nat (length acc)) by (cbn [length]; lia).
    cbn [app]. rewrite E.
    + cbn [scales_records]. rewrite <- app_assoc.
      unfold sum_counts. cbn [foldr]. fold (sum_counts this acc).
      replace (Z.of_nat (length pre + 1)) with (Z.of_nat (length pre) + 1) by lia.
      replace (R - scale_count this a - sum_counts this acc)
        with (R - (scale_count this a + sum_counts this acc)) by lia.
      reflexivity.
    + apply Forall_app. split; [assumption | apply scale_records_are_records].
    + lia.
Qed.

(** Both passes, with the content of the buffer. *)
Lemma geometry_passes_grid :
  exists rest,
    count_pass this
    = Some (accepted_scales this ++ rest,
            Z.of_nat (length (accepted_scales this)),
            counted_windows this)
    /\ generation_pass this fuel (accepted_scales this ++ rest)
         (Z.of_nat (length (accepted_scales this))) (counted_windows this)
       = Some (concat (grid_records this), counted_windows this)
    /\ Z.of_nat (length (grid_records this)) = counted_windows this.
Proof using Hvalid Hfuel.
  assert (HI : kept_by_writes this (fun _ => True)) by (intros ? ? ? ? ? ?; tauto).
  destruct (geometry_passes this Hvalid _ HI fuel Hfuel Logic.I)
    as (rest & windows' & Hcount & Hgen & _).
  exists rest. split; [exact Hcount|].
  pose proof (gen_scales_filled (accepted_scales this) [] rest [] (counted_windows this)
                (accepted_among_admissible this (exponents this))
                ltac:(constructor) ltac:(unfold counted_windows; lia)) as E.
  unfold generation_pass in *.
  cbn [length app] in E. change (Z.of_nat 0) with 0 in E.
  change (filled [] (counted_windows this))
    with (replicate (Z.to_nat (TLD_WINDOW_SIZE * counted_windows this)) 0, 0) in E.
  replace (counted_windows this - sum_counts this (accepted_scales this))
    with 0 in E by (unfold counted_windows; lia).
  unfold filled in E. change (Z.to_nat (5 * 0)) with 0%nat in E.
  cbn [replicate] in E. rewrite app_nil_r in E.
  fold (grid_records this) in E.
  rewrite E in Hgen. injection Hgen as Hw Hidx.
  split; [|exact Hidx].
  rewrite E, Hidx. reflexivity.
Qed.
End Grid_scales.

(** [initWindowsAndScales] with the content of everything it assigns. *)
Lemma initWindowsAndScales_grid this fuel :
  valid_config this -> enough_fuel this fuel ->
  exists this' rest,
    initWindowsAndScales this fuel = Returns this'
    /\ windows this' = Some (concat (grid_records this))
    /\ windows_d this' = Some (concat (grid_records this))
    /\ numWindows this' = Z.of_nat (length (grid_records this))
    /\ numWindows this' = counted_windows this
    /\ numScales this' = Z.of_nat (length (accepted_scales this))
    /\ scales this' = Some (accepted_scales this ++ rest)
    /\ same_configuration this' this
    /\ initialised this' = initialised this
    /\ windowOffsets this' = windowOffsets this
    /\ detectionResult this' = detectionResult this
    /\ calls this'
       = calls this ++ [cudaMalloc (5 * counted_windows this);
                        cudaMemcpy (5 * counted_windows this)].
Proof.
  intros Hvalid Hfuel.
  destruct (geometry_passes_grid this Hvalid fuel Hfuel)
    as (rest & Hcount & Hgen & Hlen).
  unfold initWindowsAndScales. rewrite Hcount, Hgen, Z.eqb_refl.
  eexists. exists rest. split; [reflexivity|]. cbn.
  unfold same_configuration, same_image_configuration. cbn.
  repeat split; try reflexivity. lia.
Qed.

(** X2.  For every valid configuration the window buffer that
    [initWindowsAndScales] fills, and its device copy, is the grid in
    closed form: scales in ascending index order, within a scale the rows
    [y = 1 + r * ssh], within a row the columns [x = 1 + c * ssw], each
    window a record [x, y, w, h, scaleIndex]. *)
Theorem window_buffer_is_the_grid this fuel :
  valid_config this -> enough_fuel this fuel ->
  exists this',
    initWindowsAndScales this fuel = Returns this'
    /\ windows this' = Some (concat (grid_records this))
    /\ windows_d this' = Some (concat (grid_records this))
    /\ numWindows this' = Z.of_nat (length (grid_records this))
    /\ Forall is_record (grid_records this).
Proof.
  intros Hvalid Hfuel.
  destruct (initWindowsAndScales_grid this fuel Hvalid Hfuel)
    as (this' & rest & Hret & Hw & Hd & Hn & _).
  exists this'. repeat split; try assumption.
  apply scales_records_are_records.
Qed.

Lemma window_buffer_is_the_grid_witness :
  exists this',
    initWindowsAndScales template25_image30 30 = Returns this'
    /\ windows this' = Some (concat (grid_records template25_image30))
    /\ windows_d this' = Some (concat (grid_records template25_image30))
    /\ numWindows this' = Z.of_nat (length (grid_records template25_image30))
    /\ Forall is_record (grid_records template25_image30).
Proof.
  apply (window_buffer_is_the_grid template25_image30 30).
  - unfold valid_config. vm_compute. repeat split; congruence.
  - unfold enough_fuel. vm_compute. lia.
Defined.

(** ** Windows by index *)

Lemma lookup_map_seqZ {A} (f : Z -> A) n c :
  0 <= c < n -> map f (seqZ 0 n) !! Z.to_nat c = Some (f c).
Proof.
  intros Hc. change (map f (seqZ 0 n)) with (f <$> seqZ 0 n).
  rewrite list_lookup_fmap, lookup_seqZ_lt by lia.
  cbn. do 2 f_equal. lia.
Qed.

Lemma lookup_flat_map_block {A B} (f : A -> list B) (n : nat) (l : list A) :
  (forall a, length (f a) = n) ->
  forall (r c : nat) a,
    l !! r = Some a -> (c < n)%nat ->
    flat_map f l !! (r * n + c)%nat = f a !! c.
Proof.
  intros Hf. induction l as [|a0 l IH]; intros r c a Hl Hc; [discriminate|].
  cbn [flat_map]. destruct r as [|r].
  - injection Hl as ->. apply lookup_app_l. rewrite Hf. lia.
  - rewrite lookup_app_r by (rewrite Hf; lia). rewrite Hf.
    replace (S r * n + c - n)%nat with (r * n + c)%nat by lia.
    apply IH; assumption.
Qed.

Lemma length_flat_map_block {A B} (f : A -> list B) (n : nat) (l : list A) :
  (forall a, length (f a) = n) -> length (flat_map f l) = (length l * n)%nat.
Proof.
  intros Hf. induction l as [|a l IH]; [reflexivity|].
  cbn [flat_map length]. rewrite length_app, Hf, IH. lia.
Qed.

Lemma lookup_concat_records recs : forall (n k : nat) r,
  Forall is_record recs -> recs !! n = Some r -> (k < 5)%nat ->
  concat recs !! (5 * n + k)%nat = r !! k.
Proof.
  induction recs as [|r0 recs IH]; intros n k r Hrecs Hn Hk; [discriminate|].
  inversion Hrecs as [|? ? H0 Hrecs']; subst. unfold is_record in H0.
  cbn [concat]. destruct n as [|n].
  - injection Hn as ->. apply lookup_app_l. lia.
  - rewrite lookup_app_r by lia. rewrite H0.
    replace (5 * S n + k - 5)%nat with (5 * n + k)%nat by lia.
    apply IH; assumption.
Qed.

(** Field [k] of window [i] of a buffer of records. *)
Lemma window_field_concat recs i k r :
  Forall is_record recs -> 0 <= i -> 0 <= k < 5 ->
  recs !! Z.to_nat i = Some r ->
  window_field (concat recs) i k = default 0 (r !! Z.to_nat k).
Proof.
  intros Hrecs Hi Hk Hr. unfold window_field, TLD_WINDOW_SIZE.
  replace (Z.to_nat (5 * i + k)) with (5 * Z.to_nat i + Z.to_nat k)%nat by lia.
  rewrite (lookup_concat_records recs _ _ r) by (try assumption; lia).
  reflexivity.
Qed.

Lemma scales_records_app this l1 : forall s l2,
  scales_records this s (l1 ++ l2)
  = scales_records this s l1 ++ scales_records this (s + Z.of_nat (length l1)) l2.
Proof.
  induction l1 as [|sz l1 IH]; intros s l2.
  - cbn. rewrite Z.add_0_r. reflexivity.
  - cbn [app scales_records length]. rewrite IH, <- app_assoc.
    do 3 f_equal. lia.
Qed.

Section Grid_index.
Variable this : CuDetectorCascade.
Hypothesis Hvalid : valid_config this.

Lemma row_records_length s sz r :
  admissible this sz ->
  length (row_records this s sz r)
  = Z.to_nat (axis_count (scanAreaW this) (width sz) (shift_step this (width sz))).
Proof using Type.
  intros _. unfold row_records. rewrite length_map, length_seqZ. reflexivity.
Qed.

Lemma scale_records_length s sz :
  admissible this sz ->
  Z.of_nat (length (scale_records this s sz)) = scale_count this sz.
Proof using Hvalid.
  intros Ha. unfold scale_records.
  rewrite (length_flat_map_block _
             (Z.to_nat (axis_count (scanAreaW this) (width sz)
                          (shift_step this (width sz)))))
    by (intros r; apply row_records_length; assumption).
  rewrite length_seqZ.
  pose proof (admissible_bounds this Hvalid sz Ha) as [Hw Hh].
  pose proof (admissible_steps this Hvalid sz Ha) as [Hsw Hsh].
  pose proof (axis_count_bounds _ _ _ Hw Hsw).
  pose proof (axis_count_bounds _ _ _ Hh Hsh).
  unfold scale_count. nia.
Qed.

Lemma scales_records_length l : forall s,
  Forall (admissible this) l ->
  Z.of_nat (length (scales_records this s l)) = sum_counts this l.
Proof using Hvalid.
  induction l as [|sz l IH]; intros s Hl; [reflexivity|].
  inversion Hl as [|? ? Ha Hl']; subst.
  cbn [scales_records]. rewrite length_app, Nat2Z.inj_add.
  rewrite scale_records_length, IH by assumption.
  reflexivity.
Qed.

(** Window [r * cx + c] of a scale is the one of row [r], column [c]. *)
Lemma scale_records_lookup s sz r c :
  admissible this sz ->
  0 <= r < axis_count (scanAreaH this) (height sz) (shift_step this (height sz)) ->
  0 <= c < axis_count (scanAreaW this) (width sz) (shift_step this (width sz)) ->
  scale_records this s sz
    !! Z.to_nat (r * axis_count (scanAreaW this) (width sz)
                       (shift_step this (width sz)) + c)
  = Some [1 + c * shift_step this (width sz);
          1 + r * shift_step this (height sz);
          width sz; height sz; s].
Proof using Type.
  intros Ha Hr Hc. unfold scale_records.
  set (cx := axis_count (scanAreaW this) (width sz) (shift_step this (width sz))) in *.
  replace (Z.to_nat (r * cx + c))
    with (Z.to_nat r * Z.to_nat cx + Z.to_nat c)%nat by nia.
  rewrite (lookup_flat_map_block _ (Z.to_nat cx) _
             (fun r' => row_records_length s sz r' Ha) _ _ r).
  - unfold row_records. fold cx.
    apply (lookup_map_seqZ
             (fun c => [1 + c * shift_step this (width sz);
                        1 + r * shift_step this (height sz);
                        width sz; height sz; s]) cx c).
    lia.
  - apply lookup_seqZ. lia.
  - lia.
Qed.

(** Window [base + r * cx + c] of the grid, [base] counting the windows of
    the scales before. *)
Lemma grid_records_lookup (j : nat) sz r c :
  accepted_scales this !! j = Some sz ->
  0 <= r < axis_count (scanAreaH this) (height sz) (shift_step this (height sz)) ->
  0 <= c < axis_count (scanAreaW this) (width sz) (shift_step this (width sz)) ->
  grid_records this
    !! Z.to_nat (sum_counts this (take j (accepted_scales this))
                 + r * axis_count (scanAreaW this) (width sz)
                         (shift_step this (width sz)) + c)
  = Some [1 + c * shift_step this (width sz);
          1 + r * shift_step this (height sz);
          width sz; height sz; Z.of_nat j].
Proof using Hvalid.
  intros Hj Hr Hc.
  pose proof (accepted_among_admissible this (exponents this)) as Hall.
  fold (accepted_scales this) in Hall.
  assert (Ha : admissible this sz).
  { rewrite Forall_forall in Hall. apply Hall. eapply list_elem_of_lookup_2, Hj. }
  assert (Htake : Forall (admissible this) (take j (accepted_scales this)))
    by (apply Forall_take; assumption).
  pose proof (scales_records_length _ 0 Htake) as Hlen.
  pose proof (sum_counts_bounds this Hvalid _ Htake) as Hsum.
  assert (Hjlen : length (take j (accepted_scales this)) = j).
  { apply length_take_le. apply lookup_lt_Some in Hj. lia. }
  pose proof (scale_records_length (0 + Z.of_nat j) sz Ha) as Hl.
  unfold scale_count in Hl.
  pose proof (take_drop_middle _ _ _ Hj) as Hmid.
  unfold grid_records.
  set (pre := take j (accepted_scales this)) in *.
  set (post := drop (S j) (accepted_scales this)) in *.
  rewrite <- Hmid.
  rewrite scales_records_app. cbn [scales_records].
  rewrite Hjlen.
  rewrite lookup_app_r by nia.
  rewrite lookup_app_l by nia.
  replace (Z.to_nat _ - length _)%nat
    with (Z.to_nat (r * axis_count (scanAreaW this) (width sz)
                          (shift_step this (width sz)) + c)) by nia.
  rewrite Z.add_0_l. apply scale_records_lookup; assumption.
Qed.

Lemma scale_records_consistent pre sz post s :
  accepted_scales this = pre ++ sz :: post ->
  s = Z.of_nat (length pre) ->
  admissible this sz ->
  Forall (consistent_record this) (scale_records this s sz).
Proof using Hvalid.
  intros Hacc -> Ha.
  pose proof (admissible_steps this Hvalid sz Ha) as [Hsw Hsh].
  apply Forall_forall. intros rec Hin.
  unfold scale_records in Hin.
  rewrite list_elem_of_In, in_flat_map in Hin. destruct Hin as (r & Hr & Hin).
  unfold row_records in Hin. rewrite in_map_iff in Hin.
  destruct Hin as (c & <- & Hc).
  rewrite <- list_elem_of_In, elem_of_seqZ in Hr, Hc.
  exists (1 + c * shift_step this (width sz)),
    (1 + r * shift_step this (height sz)), (Z.of_nat (length pre)), sz.
  split; [reflexivity|]. rewrite Hacc, length_app, Nat2Z.id. cbn [length].
  split; [lia|]. split; [apply list_lookup_middle; reflexivity|].
  replace (1 + c * shift_step this (width sz) - 1)
    with (c * shift_step this (width sz)) by lia.
  replace (1 + r * shift_step this (height sz) - 1)
    with (r * shift_step this (height sz)) by lia.
  rewrite !Z.mod_mul by lia.
  pose proof (admissible_bounds this Hvalid sz Ha) as [Hw Hh].
  unfold scanAreaW, scanAreaH, axis_count in *.
  pose proof (Z.mul_div_le (imgWidth this - 1 - width sz + shift_step this (width sz))
                (shift_step this (width sz)) ltac:(lia)).
  pose proof (Z.mul_div_le (imgHeight this - 1 - height sz + shift_step this (height sz))
                (shift_step this (height sz)) ltac:(lia)).
  repeat split; nia.
Qed.

Lemma scales_records_consistent l : forall pre,
  accepted_scales this = pre ++ l ->
  Forall (consistent_record this) (scales_records this (Z.of_nat (length pre)) l).
Proof using Hvalid.
  induction l as [|sz l IH]; intros pre Hacc; cbn [scales_records]; [constructor|].
  pose proof (accepted_among_admissible this (exponents this)) as Hall.
  fold (accepted_scales this) in Hall. rewrite Hacc in Hall.
  apply Forall_app in Hall as [_ Hall].
  inversion Hall as [|? ? Ha _]; subst.
  apply Forall_app. split.
  - apply (scale_records_consistent pre sz l); auto.
  - replace (Z.of_nat (length pre) + 1) with (Z.of_nat (length (pre ++ [sz])))
      by (rewrite length_app; cbn [length]; lia).
    apply IH. rewrite <- app_assoc. exact Hacc.
Qed.

Lemma grid_records_consistent :
  Forall (consistent_record this) (grid_records this).
Proof using Hvalid. apply (scales_records_consistent _ []). reflexivity. Qed.
End Grid_index.

Lemma window_record_fields recs i x y w h s :
  Forall is_record recs -> 0 <= i ->
  recs !! Z.to_nat i = Some [x; y; w; h; s] ->
  window_x (concat recs) i = x /\ window_y (concat recs) i = y
  /\ window_w (concat recs) i = w /\ window_h (concat recs) i = h
  /\ window_scale (concat recs) i = s.
Proof.
  intros Hrecs Hi Hlook.
  unfold window_x, window_y, window_w, window_h, window_scale.
  rewrite (window_field_concat recs i 0 _ Hrecs Hi ltac:(lia) Hlook).
  rewrite (window_field_concat recs i 1 _ Hrecs Hi ltac:(lia) Hlook).
  rewrite (window_field_concat recs i 2 _ Hrecs Hi ltac:(lia) Hlook).
  rewrite (window_field_concat recs i 3 _ Hrecs Hi ltac:(lia) Hlook).
  rewrite (window_field_concat recs i 4 _ Hrecs Hi ltac:(lia) Hlook).
  repeat split.
Qed.

(** X3.  Windows are addressed by scale, row and column: for a valid
    configuration, the window at row [r] and column [c] of stored scale
    [j] has index [base + r * cx + c], where [base] counts the windows of
    the scales before [j] and [cx] is the number of columns of scale [j],
    and its record is [(1 + c * ssw, 1 + r * ssh, w, h, j)]. *)
Theorem window_at_row_and_column this fuel (j : nat) sz r c :
  valid_config this -> enough_fuel this fuel ->
  accepted_scales this !! j = Some sz ->
  0 <= r < axis_count (scanAreaH this) (height sz) (shift_step this (height sz)) ->
  0 <= c < axis_count (scanAreaW this) (width sz) (shift_step this (width sz)) ->
  exists this' ws,
    initWindowsAndScales this fuel = Returns this'
    /\ windows this' = Some ws
    /\ let i := sum_counts this (take j (accepted_scales this))
                + r * axis_count (scanAreaW this) (width sz)
                        (shift_step this (width sz)) + c in
       0 <= i < numWindows this'
       /\ window_x ws i = 1 + c * shift_step this (width sz)
       /\ window_y ws i = 1 + r * shift_step this (height sz)
       /\ window_w ws i = width sz
       /\ window_h ws i = height sz
       /\ window_scale ws i = Z.of_nat j.
Proof.
  intros Hvalid Hfuel Hj Hr Hc.
  destruct (initWindowsAndScales_grid this fuel Hvalid Hfuel)
    as (this' & rest & Hret & Hw & _ & Hn & _).
  exists this', (concat (grid_records this)).
  split; [exact Hret|]. split; [exact Hw|].
  pose proof (grid_records_lookup this Hvalid j sz r c Hj Hr Hc) as Hlook.
  pose proof (scales_records_are_records this (accepted_scales this) 0) as Hrecs.
  fold (grid_records this) in Hrecs.
  assert (Htake : Forall (admissible this) (take j (accepted_scales this)))
    by (apply Forall_take, (accepted_among_admissible this (exponents this))).
  pose proof (sum_counts_bounds this Hvalid _ Htake) as Hsum.
  set (i := sum_counts this (take j (accepted_scales this))
            + r * axis_count (scanAreaW this) (width sz)
                    (shift_step this (width sz)) + c) in *.
  assert (Hi0 : 0 <= i) by (unfold i; nia).
  cbv zeta. split.
  - apply lookup_lt_Some in Hlook. lia.
  - exact (window_record_fields _ i _ _ _ _ _ Hrecs Hi0 Hlook).
Qed.

Lemma window_at_row_and_column_witness :
  exists this' ws,
    initWindowsAndScales template25_image30 30 = Returns this'
    /\ windows this' = Some ws
    /\ let i := sum_counts template25_image30
                  (take 0 (accepted_scales template25_image30))
                + 1 * axis_count (scanAreaW template25_image30) (width (mkSize 25 25))
                        (shift_step template25_image30 (width (mkSize 25 25))) + 2 in
       0 <= i < numWindows this'
       /\ window_x ws i = 1 + 2 * shift_step template25_image30 (width (mkSize 25 25))
       /\ window_y ws i = 1 + 1 * shift_step template25_image30 (height (mkSize 25 25))
       /\ window_w ws i = width (mkSize 25 25)
       /\ window_h ws i = height (mkSize 25 25)
       /\ window_scale ws i = Z.of_nat 0.
Proof.
  apply (window_at_row_and_column template25_image30 30 0%nat (mkSize 25 25) 1 2).
  - unfold valid_config. vm_compute. repeat split; congruence.
  - unfold enough_fuel. vm_compute. lia.
  - vm_compute. reflexivity.
  - vm_compute. split; [discriminate | reflexivity].
  - vm_compute. split; [discriminate | reflexivity].
Defined.

(** X4.  For every valid configuration, every window of the buffer names
    a stored scale ([0 <= scaleIndex < numScales]) and carries that
    scale's width and height, and its corner lies on the lattice of that
    scale's steps: [x - 1] is a multiple of the horizontal step and
    [y - 1] of the vertical one. *)
Theorem every_window_carries_its_scale this fuel :
  valid_config this -> enough_fuel this fuel ->
  exists this' ws scs,
    initWindowsAndScales this fuel = Returns this'
    /\ windows this' = Some ws
    /\ scales this' = Some scs
    /\ forall i, 0 <= i < numWindows this' ->
         0 <= window_scale ws i < numScales this'
         /\ scs !! Z.to_nat (window_scale ws i)
            = Some (mkSize (window_w ws i) (window_h ws i))
         /\ (window_x ws i - 1) mod shift_step this (window_w ws i) = 0
         /\ (window_y ws i - 1) mod shift_step this (window_h ws i) = 0.
Proof.
  intros Hvalid Hfuel.
  destruct (initWindowsAndScales_grid this fuel Hvalid Hfuel)
    as (this' & rest & Hret & Hw & _ & Hn & _ & Hns & Hsc & _).
  exists this', (concat (grid_records this)), (accepted_scales this ++ rest).
  split; [exact Hret|]. split; [exact Hw|]. split; [exact Hsc|].
  intros i Hi.
  pose proof (scales_records_are_records this (accepted_scales this) 0) as Hrecs.
  fold (grid_records this) in Hrecs.
  destruct (lookup_lt_is_Some_2 (grid_records this) (Z.to_nat i) ltac:(lia))
    as (rec & Hlook).
  pose proof (grid_records_consistent this Hvalid) as Hall.
  rewrite Forall_forall in Hall.
  destruct (Hall rec (list_elem_of_lookup_2 _ _ _ Hlook))
    as (x & y & s & sz & -> & Hs & Hsz & Hx & Hy & _).
  destruct (window_record_fields _ i _ _ _ _ _ Hrecs ltac:(lia) Hlook)
    as (-> & -> & -> & -> & ->).
  rewrite Hns. split; [exact Hs|].
  split; [|split; assumption].
  rewrite lookup_app_l by lia.
  destruct sz. exact Hsz.
Qed.

Lemma every_window_carries_its_scale_witness :
  exists this' ws scs,
    initWindowsAndScales template25_image30 30 = Returns this'
    /\ windows this' = Some ws
    /\ scales this' = Some scs
    /\ forall i, 0 <= i < numWindows this' ->
         0 <= window_scale ws i < numScales this'
         /\ scs !! Z.to_nat (window_scale ws i)
            = Some (mkSize (window_w ws i) (window_h ws i))
         /\ (window_x ws i - 1)
              mod shift_step template25_image30 (window_w ws i) = 0
         /\ (window_y ws i - 1)
              mod shift_step template25_image30 (window_h ws i) = 0.
Proof.
  apply (every_window_carries_its_scale template25_image30 30).
  - unfold valid_config. vm_compute. repeat split; congruence.
  - unfold enough_fuel. vm_compute. lia.
Defined.

(** ** Dependence on the configuration alone *)

Lemma scales_records_ext a b l : forall s,
  (forall s' sz, scale_records a s' sz = scale_records b s' sz) ->
  scales_records a s l = scales_records b s l.
Proof.
  induction l as [|sz l IH]; intros s H; [reflexivity|].
  cbn [scales_records]. rewrite H, (IH _ H). reflexivity.
Qed.

Lemma geometry_of_same_configuration a b fuel :
  same_configuration a b ->
  count_pass a = count_pass b
  /\ accepted_scales a = accepted_scales b
  /\ grid_records a = grid_records b
  /\ counted_windows a = counted_windows b
  /\ (forall scs ns nw,
        generation_pass a fuel scs ns nw = generation_pass b fuel scs ns nw)
  /\ (valid_config b -> valid_config a)
  /\ (enough_fuel b fuel -> enough_fuel a fuel).
Proof.
  destruct a, b. unfold same_configuration, same_image_configuration. cbn.
  intros (-> & -> & -> & -> & -> & -> & -> & -> & -> & -> & -> & ->).
  split; [reflexivity|]. split; [reflexivity|].
  split.
  { unfold grid_records.
    match goal with
    | |- scales_records ?A 0 _ = scales_records ?B 0 ?l =>
        transitivity (scales_records A 0 l);
        [reflexivity | apply scales_records_ext; intros; reflexivity]
    end. }
  split; [reflexivity|]. split; [reflexivity|].
  split; intros H; exact H.
Qed.

(** A window of the grid, read back from the flat buffer. *)
Lemma grid_window this (Hvalid : valid_config this) i :
  0 <= i < Z.of_nat (length (grid_records this)) ->
  exists x y s sz,
    window_x (concat (grid_records this)) i = x
    /\ window_y (concat (grid_records this)) i = y
    /\ window_w (concat (grid_records this)) i = width sz
    /\ window_h (concat (grid_records this)) i = height sz
    /\ window_scale (concat (grid_records this)) i = s
    /\ 0 <= s < Z.of_nat (length (accepted_scales this))
    /\ accepted_scales this !! Z.to_nat s = Some sz
    /\ within_limits this sz
    /\ 0 <= width sz /\ 0 <= height sz
    /\ 1 <= x /\ 1 <= y
    /\ x + width sz <= imgWidth this /\ y + height sz <= imgHeight this.
Proof.
  intros Hi.
  pose proof (scales_records_are_records this (accepted_scales this) 0) as Hrecs.
  fold (grid_records this) in Hrecs.
  destruct (lookup_lt_is_Some_2 (grid_records this) (Z.to_nat i) ltac:(lia))
    as (rec & Hlook).
  pose proof (grid_records_consistent this Hvalid) as Hall.
  rewrite Forall_forall in Hall.
  destruct (Hall rec (list_elem_of_lookup_2 _ _ _ Hlook))
    as (x & y & s & sz & -> & Hs & Hsz & _ & _ & Hx & Hy & Hxw & Hyh).
  destruct (window_record_fields _ i _ _ _ _ _ Hrecs ltac:(lia) Hlook)
    as (Ex & Ey & Ew & Eh & Es).
  assert (Ha : admissible this sz).
  { pose proof (accepted_among_admissible this (exponents this)) as Hadm.
    rewrite Forall_forall in Hadm. apply Hadm.
    apply (list_elem_of_lookup_2 _ (Z.to_nat s)). exact Hsz. }
  pose proof (admissible_bounds this Hvalid sz Ha) as [Hw Hh].
  exists x, y, s, sz. rewrite Ex, Ey, Ew, Eh, Es.
  repeat split; try assumption; try lia;
    apply admissible_within_limits in Ha; destruct Ha as [? ?]; lia.
Qed.

(** X5.  [init] on a valid configuration returns with the cascade
    initialised and its configuration unchanged; the window buffer has
    five entries and the offset table six entries per window; every
    component holds the cascade's own arrays and counts (the variance
    filter the offsets and the device buffer, the ensemble classifier the
    offsets, stride, scales and tree and feature counts, the
    nearest-neighbour classifier and the clustering the windows); and the
    calls made are, in order, [cudaMalloc], [cudaMemcpy],
    [detectionResult->init(numWindows, numTrees)] and
    [ensembleClassifier->init()]. *)
Theorem init_hands_arrays_to_components this fuel :
  valid_config this -> enough_fuel this fuel ->
  exists this' ws offs scs,
    init fuel this = Returns this'
    /\ initialised this' = true
    /\ same_configuration this' this
    /\ windows this' = Some ws /\ windows_d this' = Some ws
    /\ windowOffsets this' = Some offs /\ scales this' = Some scs
    /\ Z.of_nat (length ws) = 5 * numWindows this'
    /\ Z.of_nat (length offs) = 6 * numWindows this'
    /\ varianceFilter this' = mkCuVarianceFilter (Some offs) (Some ws)
    /\ ensembleClassifier this'
       = mkEnsembleClassifier (Some offs) (imgWidthStep this)
           (numScales this') (Some scs) (numFeatures this) (numTrees this)
    /\ nnClassifier this' = mkNNClassifier (Some ws)
    /\ clustering this' = mkClustering (Some ws) (numWindows this')
    /\ detectionResult this' = detectionResult this
    /\ calls this'
       = calls this
         ++ [cudaMalloc (5 * numWindows this');
             cudaMemcpy (5 * numWindows this');
             DetectionResult_init (numWindows this') (numTrees this);
             EnsembleClassifier_init].
Proof.
  intros Hvalid Hfuel.
  destruct (initWindowsAndScales_grid this fuel Hvalid Hfuel)
    as (g & rest & Hret & Hw & Hd & Hn & Hc & Hns & Hsc & Hcfg & Hini & Hwo
        & Hdr & Hcalls).
  pose proof (scales_records_are_records this (accepted_scales this) 0) as Hrecs.
  fold (grid_records this) in Hrecs.
  destruct (offsets_table_records g _ Hw ltac:(lia)) as [Hlen _].
  destruct Hcfg as (Ho1 & Ho2 & H1 & H2 & H3 & H4 & H5 & H6 & H7 & H8 & H9 & H10).
  unfold init. rewrite Hret.
  eexists. exists (concat (grid_records this)), (offsets_table g),
    (accepted_scales this ++ rest).
  split; [reflexivity|].
  unfold same_configuration, same_image_configuration. cbn.
  rewrite Hw, Hd, Hsc, Hcalls, Hdr, H3, H9, H10, <- Hc, <- !app_assoc.
  rewrite (concat_records_length _ Hrecs).
  repeat split; try assumption; try reflexivity; lia.
Qed.

Lemma init_hands_arrays_to_components_witness :
  exists this' ws offs scs,
    init 30 template25_image30 = Returns this'
    /\ initialised this' = true
    /\ same_configuration this' template25_image30
    /\ windows this' = Some ws /\ windows_d this' = Some ws
    /\ windowOffsets this' = Some offs /\ scales this' = Some scs
    /\ Z.of_nat (length ws) = 5 * numWindows this'
    /\ Z.of_nat (length offs) = 6 * numWindows this'
    /\ varianceFilter this' = mkCuVarianceFilter (Some offs) (Some ws)
    /\ ensembleClassifier this'
       = mkEnsembleClassifier (Some offs) (imgWidthStep template25_image30)
           (numScales this') (Some scs) (numFeatures template25_image30)
           (numTrees template25_image30)
    /\ nnClassifier this' = mkNNClassifier (Some ws)
    /\ clustering this' = mkClustering (Some ws) (numWindows this')
    /\ detectionResult this' = detectionResult template25_image30
    /\ calls this'
       = calls template25_image30
         ++ [cudaMalloc (5 * numWindows this');
             cudaMemcpy (5 * numWindows this');
             DetectionResult_init (numWindows this') (numTrees template25_image30);
             EnsembleClassifier_init].
Proof.
  apply (init_hands_arrays_to_components template25_image30 30).
  - unfold valid_config. vm_compute. repeat split; congruence.
  - unfold enough_fuel. vm_compute. lia.
Defined.

(** X6.  After [init] on a valid configuration whose row stride is at
    least the image width and whose image of [imgHeight] rows of
    [imgWidthStep] elements can be indexed by an [int]
    ([imgHeight * imgWidthStep <= 2^31]), the four corner offsets of every
    offset record are indices into that image:
    [0 <= offset < imgHeight * imgWidthStep]. *)
Theorem corner_offsets_address_the_image this fuel :
  valid_config this -> enough_fuel this fuel ->
  imgWidth this <= imgWidthStep this ->
  imgHeight this * imgWidthStep this <= 2 ^ 31 ->
  exists this' offs,
    init fuel this = Returns this'
    /\ windowOffsets this' = Some offs
    /\ forall i, 0 <= i < numWindows this' ->
         forall j, 0 <= j < 4 ->
           exists o, offset_field offs i j = Some o
                     /\ 0 <= o < imgHeight this * imgWidthStep this.
Proof.
  intros Hvalid Hfuel Hstep Hint.
  destruct (initWindowsAndScales_grid this fuel Hvalid Hfuel)
    as (g & rest & Hret & Hw & _ & Hn & _ & _ & _ & Hcfg & _).
  destruct (offsets_table_records g _ Hw ltac:(lia)) as [_ Hrec].
  destruct Hcfg as (_ & _ & _ & _ & H3 & _).
  unfold init. rewrite Hret.
  eexists. exists (offsets_table g).
  split; [reflexivity|]. split; [reflexivity|].
  cbn [numWindows mark_initialised propagateMembers initWindowOffsets].
  intros i Hi j Hj.
  destruct (grid_window this Hvalid i ltac:(lia))
    as (x & y & s & sz & Ex & Ey & Ew & Eh & _ & _ & _ & _ & Hw0 & Hh0
        & Hx & Hy & Hxw & Hyh).
  destruct (valid_image_bounds this Hvalid) as [HW HH].
  assert (Hcases : j = Z.of_nat 0 \/ j = Z.of_nat 1 \/ j = Z.of_nat 2
                   \/ j = Z.of_nat 3) by lia.
  destruct Hcases as [-> | [-> | [-> | ->]]];
    rewrite (Hrec i Hi) by lia;
    unfold offset_record; rewrite Ex, Ey, Ew, Eh, H3;
    cbn [lookup list_lookup];
    rewrite ?(int_add_fits x (width sz)), ?(int_add_fits y (height sz))
      by (unfold fits_int; lia);
    rewrite ?(int_sub_fits x 1), ?(int_sub_fits y 1),
      ?(int_sub_fits (x + width sz) 1), ?(int_sub_fits (y + height sz) 1)
      by (unfold fits_int; lia);
    rewrite sub2idx_fits by (unfold fits_int; nia);
    eexists; (split; [reflexivity|]); nia.
Qed.

Lemma corner_offsets_address_the_image_witness :
  exists this' offs,
    init 30 template25_image30 = Returns this'
    /\ windowOffsets this' = Some offs
    /\ forall i, 0 <= i < numWindows this' ->
         forall j, 0 <= j < 4 ->
           exists o, offset_field offs i j = Some o
                     /\ 0 <= o < imgHeight template25_image30
                                 * imgWidthStep template25_image30.
Proof.
  apply (corner_offsets_address_the_image template25_image30 30).
  - unfold valid_config. vm_compute. repeat split; congruence.
  - unfold enough_fuel. vm_compute. lia.
  - vm_compute. discriminate.
  - vm_compute. discriminate.
Defined.

(** X7.  After [init] on a valid configuration with at least one feature
    and one tree, whose feature table
    ([(maxScale - minScale + 1) * 2 * numFeatures * numTrees] entries) and
    whose scan area ([(imgWidth - 1) * (imgHeight - 1)]) can be indexed by
    an [int], field 4 of every offset record is
    [s * 2 * numFeatures * numTrees] for the index [s] of a stored scale,
    and field 5 is the area [w * h] of that scale, which is at least
    [minSize * minSize] and at most [(imgWidth - 1) * (imgHeight - 1)]. *)
Theorem feature_base_and_area_of_a_stored_scale this fuel :
  valid_config this -> enough_fuel this fuel ->
  0 < numFeatures this -> 0 < numTrees this ->
  (maxScale this - minScale this + 1) * 2 * numFeatures this * numTrees this
  < 2 ^ 31 ->
  (imgWidth this - 1) * (imgHeight this - 1) < 2 ^ 31 ->
  exists this' offs scs,
    init fuel this = Returns this'
    /\ windowOffsets this' = Some offs
    /\ scales this' = Some scs
    /\ forall i, 0 <= i < numWindows this' ->
         exists s sz,
           0 <= s < numScales this'
           /\ scs !! Z.to_nat s = Some sz
           /\ offset_field offs i 4
              = Some (s * 2 * numFeatures this * numTrees this)
           /\ offset_field offs i 5 = Some (width sz * height sz)
           /\ minSize this * minSize this <= width sz * height sz
              <= (imgWidth this - 1) * (imgHeight this - 1).
Proof.
  intros Hvalid Hfuel HnF HnT Htable Harea.
  destruct (initWindowsAndScales_grid this fuel Hvalid Hfuel)
    as (g & rest & Hret & Hw & _ & Hn & _ & Hns & Hsc & Hcfg & _).
  destruct (offsets_table_records g _ Hw ltac:(lia)) as [_ Hrec].
  destruct Hcfg as (_ & _ & _ & _ & _ & _ & _ & _ & _ & _ & H9 & H10).
  unfold init. rewrite Hret.
  eexists. exists (offsets_table g), (accepted_scales this ++ rest).
  split; [reflexivity|]. split; [reflexivity|].
  cbn [numWindows numScales scales mark_initialised propagateMembers
       initWindowOffsets].
  split; [exact Hsc|].
  intros i Hi.
  destruct (grid_window this Hvalid i ltac:(lia))
    as (x & y & s & sz & _ & _ & Ew & Eh & Es & Hs & Hsz & Hlim & Hw0 & Hh0 & _).
  pose proof (accepted_among_length this (exponents this)) as Hlen.
  fold (accepted_scales this) in Hlen.
  unfold exponents in Hlen. rewrite length_seqZ in Hlen.
  assert (Hmin : 0 <= minSize this)
    by (destruct Hvalid as (_ & _ & _ & _ & _ & Hmin & _); exact Hmin).
  unfold within_limits in Hlim.
  assert (Harea' : minSize this * minSize this <= width sz * height sz
                   <= (imgWidth this - 1) * (imgHeight this - 1)) by nia.
  exists s, sz. rewrite Hns. split; [exact Hs|].
  split; [rewrite lookup_app_l by lia; exact Hsz|].
  pose proof (Hrec i Hi 4%nat ltac:(lia)) as E4.
  pose proof (Hrec i Hi 5%nat ltac:(lia)) as E5.
  change (Z.of_nat 4) with 4 in E4. change (Z.of_nat 5) with 5 in E5.
  rewrite E4, E5.
  unfold offset_record. rewrite Ew, Eh, Es, H9, H10.
  cbn [lookup list_lookup].
  rewrite (int_mul_fits s 2) by (unfold fits_int; nia).
  rewrite (int_mul_fits (s * 2)) by (unfold fits_int; nia).
  rewrite (int_mul_fits (s * 2 * numFeatures this))
    by (unfold fits_int; nia).
  rewrite (int_mul_fits (width sz)) by (unfold fits_int; nia).
  split; [reflexivity|]. split; [reflexivity|]. exact Harea'.
Qed.

Lemma feature_base_and_area_of_a_stored_scale_witness :
  exists this' offs scs,
    init 30 template25_image30 = Returns this'
    /\ windowOffsets this' = Some offs
    /\ scales this' = Some scs
    /\ forall i, 0 <= i < numWindows this' ->
         exists s sz,
           0 <= s < numScales this'
           /\ scs !! Z.to_nat s = Some sz
           /\ offset_field offs i 4
              = Some (s * 2 * numFeatures template25_image30
                      * numTrees template25_image30)
           /\ offset_field offs i 5 = Some (width sz * height sz)
           /\ minSize template25_image30 * minSize template25_image30
              <= width sz * height sz
              <= (imgWidth template25_image30 - 1)
                 * (imgHeight template25_image30 - 1).
Proof.
  apply (feature_base_and_area_of_a_stored_scale template25_image30 30).
  - unfold valid_config. vm_compute. repeat split; congruence.
  - unfold enough_fuel. vm_compute. lia.
  - vm_compute. reflexivity.
  - vm_compute. reflexivity.
  - vm_compute. reflexivity.
  - vm_compute. reflexivity.
Defined.

(** ** Images in which no scale fits *)




(** ** Allocation and release of the device buffer *)

(** X9.  [release] after [init] pairs with it: the calls of the two are
    one [cudaMalloc] and one [cudaFree], the host arrays are gone and the
    counts are zero.  [release] does not assign [windows_d], which keeps
    the freed pointer; a destructor that follows finds the cascade not
    initialised and makes no further call, so the buffer is freed once. *)
Theorem device_buffer_freed_once this fuel :
  valid_config this -> enough_fuel this fuel ->
  exists c1 ws,
    init fuel this = Returns c1
    /\ windows_d c1 = Some ws
    /\ windows_d (release c1) = Some ws
    /\ windows (release c1) = None /\ scales (release c1) = None
    /\ windowOffsets (release c1) = None
    /\ numWindows (release c1) = 0 /\ numScales (release c1) = 0
    /\ calls (release c1)
       = calls this
         ++ [cudaMalloc (5 * numWindows c1);
             cudaMemcpy (5 * numWindows c1);
             DetectionResult_init (numWindows c1) (numTrees this);
             EnsembleClassifier_init;
             EnsembleClassifier_release; NNClassifier_release;
             Clustering_release; cudaFree; DetectionResult_release]
    /\ fst (destructor (release c1)) = release c1
    /\ device_allocations
         (drop (length (calls this)) (calls (fst (destructor (release c1)))))
       = 1%nat
    /\ device_frees
         (drop (length (calls this)) (calls (fst (destructor (release c1)))))
       = 1%nat.
Proof.
  intros Hvalid Hfuel.
  destruct (initWindowsAndScales_grid this fuel Hvalid Hfuel)
    as (g & rest & Hret & Hw & Hd & Hn & Hc & Hns & Hsc & Hcfg & Hini & Hwo
        & Hdr & Hcalls).
  destruct Hcfg as (_ & _ & _ & _ & _ & _ & _ & _ & _ & _ & H9 & _).
  unfold init. rewrite Hret.
  eexists. exists (concat (grid_records this)).
  split; [reflexivity|].
  unfold destructor, release.
  cbn [initialised mark_initialised negb fst windows_d windows scales
       windowOffsets numWindows numScales calls propagateMembers
       initWindowOffsets numTrees].
  rewrite Hd, Hcalls, H9, <- Hc, <- !app_assoc.
  cbn [app]. rewrite !drop_app_length.
  repeat split.
Qed.

Lemma device_buffer_freed_once_witness :
  exists c1 ws,
    init 30 template25_image30 = Returns c1
    /\ windows_d c1 = Some ws
    /\ windows_d (release c1) = Some ws
    /\ windows (release c1) = None /\ scales (release c1) = None
    /\ windowOffsets (release c1) = None
    /\ numWindows (release c1) = 0 /\ numScales (release c1) = 0
    /\ calls (release c1)
       = calls template25_image30
         ++ [cudaMalloc (5 * numWindows c1);
             cudaMemcpy (5 * numWindows c1);
             DetectionResult_init (numWindows c1) (numTrees template25_image30);
             EnsembleClassifier_init;
             EnsembleClassifier_release; NNClassifier_release;
             Clustering_release; cudaFree; DetectionResult_release]
    /\ fst (destructor (release c1)) = release c1
    /\ device_allocations
         (drop (length (calls template25_image30))
            (calls (fst (destructor (release c1)))))
       = 1%nat
    /\ device_frees
         (drop (length (calls template25_image30))
            (calls (fst (destructor (release c1)))))
       = 1%nat.
Proof.
  apply (device_buffer_freed_once template25_image30 30).
  - unfold valid_config. vm_compute. repeat split; congruence.
  - unfold enough_fuel. vm_compute. lia.
Defined.

(** X10.  [init] does not look at [initialised]: a second [init] without
    a [release] in between runs again and builds the same windows, and
    calls [cudaMalloc] a second time over the pointer of the first
    buffer; the [release] that follows calls [cudaFree] once, so of two
    device buffers one is freed. *)
Theorem second_init_leaks_the_device_buffer this fuel :
  valid_config this -> enough_fuel this fuel ->
  exists c1 c2,
    init fuel this = Returns c1
    /\ init fuel c1 = Returns c2
    /\ windows c2 = windows c1 /\ numWindows c2 = numWindows c1
    /\ calls (release c2)
       = calls this
         ++ [cudaMalloc (5 * numWindows c1);
             cudaMemcpy (5 * numWindows c1);
             DetectionResult_init (numWindows c1) (numTrees this);
             EnsembleClassifier_init;
             cudaMalloc (5 * numWindows c1);
             cudaMemcpy (5 * numWindows c1);
             DetectionResult_init (numWindows c1) (numTrees this);
             EnsembleClassifier_init;
             EnsembleClassifier_release; NNClassifier_release;
             Clustering_release; cudaFree; DetectionResult_release]
    /\ device_allocations (drop (length (calls this)) (calls (release c2)))
       = 2%nat
    /\ device_frees (drop (length (calls this)) (calls (release c2)))
       = 1%nat.
Proof.
  intros Hvalid Hfuel.
  destruct (initWindowsAndScales_grid this fuel Hvalid Hfuel)
    as (g & rest & Hret & Hw & Hd & Hn & Hc & Hns & Hsc & Hcfg & Hini & Hwo
        & Hdr & Hcalls).
  set (c1 := mark_initialised (propagateMembers (initWindowOffsets g))).
  assert (Hsame : same_configuration c1 this)
    by (unfold same_configuration, same_image_configuration in *; exact Hcfg).
  destruct (geometry_of_same_configuration c1 this fuel Hsame)
    as (_ & _ & Hgrid & Hcount & _ & Hv & Hf).
  destruct (initWindowsAndScales_grid c1 fuel (Hv Hvalid) (Hf Hfuel))
    as (g' & rest' & Hret' & Hw' & Hd' & Hn' & Hc' & _ & _ & Hcfg' & _ & _
        & _ & Hcalls').
  destruct Hcfg as (_ & _ & _ & _ & _ & _ & _ & _ & _ & _ & H9 & _).
  destruct Hcfg' as (_ & _ & _ & _ & _ & _ & _ & _ & _ & _ & H9' & _).
  exists c1, (mark_initialised (propagateMembers (initWindowOffsets g'))).
  split; [unfold init; rewrite Hret; reflexivity|].
  split; [unfold init; rewrite Hret'; reflexivity|].
  unfold release.
  cbn [initialised mark_initialised negb fst windows_d windows scales
       windowOffsets numWindows numScales calls propagateMembers
       initWindowOffsets numTrees].
  rewrite Hd', Hcalls', Hw', Hc', H9', Hgrid, Hcount.
  unfold c1.
  cbn [initialised mark_initialised negb fst windows_d windows scales
       windowOffsets numWindows numScales calls propagateMembers
       initWindowOffsets numTrees].
  rewrite Hcalls, Hw, Hc, H9, <- !app_assoc.
  cbn [app]. rewrite !drop_app_length.
  repeat split.
Qed.

Lemma second_init_leaks_the_device_buffer_witness :
  exists c1 c2,
    init 30 template25_image30 = Returns c1
    /\ init 30 c1 = Returns c2
    /\ windows c2 = windows c1 /\ numWindows c2 = numWindows c1
    /\ calls (release c2)
       = calls template25_image30
         ++ [cudaMalloc (5 * numWindows c1);
             cudaMemcpy (5 * numWindows c1);
             DetectionResult_init (numWindows c1) (numTrees template25_image30);
             EnsembleClassifier_init;
             cudaMalloc (5 * numWindows c1);
             cudaMemcpy (5 * numWindows c1);
             DetectionResult_init (numWindows c1) (numTrees template25_image30);
             EnsembleClassifier_init;
             EnsembleClassifier_release; NNClassifier_release;
             Clustering_release; cudaFree; DetectionResult_release]
    /\ device_allocations
         (drop (length (calls template25_image30)) (calls (release c2)))
       = 2%nat
    /\ device_frees
         (drop (length (calls template25_image30)) (calls (release c2)))
       = 1%nat.
Proof.
  apply (second_init_leaks_the_device_buffer template25_image30 30).
  - unfold valid_config. vm_compute. repeat split; congruence.
  - unfold enough_fuel. vm_compute. lia.
Defined.

(** ** Detection after initialisation *)

Section Detection_composed.
Variable Mat : Type.
Variable variance_filter : CuVarianceFilter -> Mat -> list Z -> Z -> list Z.

(** X12.  [detect] after [init] on a valid configuration hands the
    variance filter every window: the index array covers
    [[0, numWindows)], the count is [numWindows], and the filter object
    holds the offset table and the device copy of the window buffer that
    [init] built; then it runs the clustering and marks the result
    valid. *)
Theorem detect_after_init_filters_every_window this fuel img :
  valid_config this -> enough_fuel this fuel ->
  exists c1 ws offs,
    init fuel this = Returns c1
    /\ windows c1 = Some ws /\ windowOffsets c1 = Some offs
    /\ Z.of_nat (length ws) = 5 * numWindows c1
    /\ Z.of_nat (length offs) = 6 * numWindows c1
    /\ detect_calls Mat variance_filter c1 img
       = [DetectionResult_reset;
          createIndexArray_call (numWindows c1);
          CuVarianceFilter_filter (numWindows c1)
            (variance_filter (mkCuVarianceFilter (Some offs) (Some ws)) img
               (seqZ 0 (numWindows c1)) (numWindows c1));
          Clustering_clusterConfidentIndices]
    /\ containsValidData (detectionResult (detect Mat variance_filter c1 img))
       = true.
Proof using Type.
  intros Hvalid Hfuel.
  destruct (initWindowsAndScales_grid this fuel Hvalid Hfuel)
    as (g & rest & Hret & Hw & Hd & Hn & _).
  pose proof (scales_records_are_records this (accepted_scales this) 0) as Hrecs.
  fold (grid_records this) in Hrecs.
  destruct (offsets_table_records g _ Hw ltac:(lia)) as [Hlen _].
  unfold init. rewrite Hret.
  eexists. exists (concat (grid_records this)), (offsets_table g).
  split; [reflexivity|].
  rewrite detect_calls_initialised by reflexivity.
  unfold variance_survivors, createIndexArray, detect.
  cbn [initialised mark_initialised negb windows windowOffsets numWindows
       propagateMembers initWindowOffsets varianceFilter with_detection
       detectionResult containsValidData windows_d].
  rewrite Hw, Hd, (concat_records_length _ Hrecs).
  repeat split; try reflexivity; lia.
Qed.

(** X13.  [detect] changes nothing of the cascade but the detection
    result and the call log, so every frame is treated alike: two passes
    in a row make the calls each would have made on the cascade as it was
    before the first, and leave configuration, windows and counts as they
    were. *)
Theorem detect_twice this a b :
  initialised this = true ->
  calls (detect Mat variance_filter (detect Mat variance_filter this a) b)
  = calls this ++ detect_calls Mat variance_filter this a
    ++ detect_calls Mat variance_filter this b
  /\ same_configuration
       (detect Mat variance_filter (detect Mat variance_filter this a) b) this
  /\ windows (detect Mat variance_filter (detect Mat variance_filter this a) b)
     = windows this
  /\ windowOffsets
       (detect Mat variance_filter (detect Mat variance_filter this a) b)
     = windowOffsets this
  /\ numWindows
       (detect Mat variance_filter (detect Mat variance_filter this a) b)
     = numWindows this
  /\ initialised
       (detect Mat variance_filter (detect Mat variance_filter this a) b)
     = true.
Proof using Type.
  intros Hinit.
  rewrite !(detect_calls_initialised Mat variance_filter this) by exact Hinit.
  unfold variance_survivors, createIndexArray, detect.
  rewrite Hinit.
  cbn [negb initialised with_detection].
  rewrite Hinit.
  unfold same_configuration, same_image_configuration.
  cbn. rewrite <- !app_assoc. repeat split. exact Hinit.
Qed.
End Detection_composed.

Lemma detect_after_init_filters_every_window_witness :
  exists c1 ws offs,
    init 30 template25_image30 = Returns c1
    /\ windows c1 = Some ws /\ windowOffsets c1 = Some offs
    /\ Z.of_nat (length ws) = 5 * numWindows c1
    /\ Z.of_nat (length offs) = 6 * numWindows c1
    /\ detect_calls unit keep_all c1 tt
       = [DetectionResult_reset;
          createIndexArray_call (numWindows c1);
          CuVarianceFilter_filter (numWindows c1)
            (keep_all (mkCuVarianceFilter (Some offs) (Some ws)) tt
               (seqZ 0 (numWindows c1)) (numWindows c1));
          Clustering_clusterConfidentIndices]
    /\ containsValidData (detectionResult (detect unit keep_all c1 tt)) = true.
Proof.
  apply (detect_after_init_filters_every_window unit keep_all
           template25_image30 30 tt).
  - unfold valid_config. vm_compute. repeat split; congruence.
  - unfold enough_fuel. vm_compute. lia.
Defined.

Lemma detect_twice_witness :
  calls (detect unit keep_all (detect unit keep_all ready30 tt) tt)
  = calls ready30 ++ detect_calls unit keep_all ready30 tt
    ++ detect_calls unit keep_all ready30 tt
  /\ same_configuration
       (detect unit keep_all (detect unit keep_all ready30 tt) tt) ready30
  /\ windows (detect unit keep_all (detect unit keep_all ready30 tt) tt)
     = windows ready30
  /\ windowOffsets (detect unit keep_all (detect unit keep_all ready30 tt) tt)
     = windowOffsets ready30
  /\ numWindows (detect unit keep_all (detect unit keep_all ready30 tt) tt)
     = numWindows ready30
  /\ initialised (detect unit keep_all (detect unit keep_all ready30 tt) tt)
     = true.
Proof.
  apply (detect_twice unit keep_all ready30 tt tt).
  vm_compute. reflexivity.
Defined.

(** ** Steps and scales *)

(** X14.  The scan step computed from a window side lies between 1 and
    the side (1 for sides below 1): the loops over rows and columns
    always advance, and consecutive windows of a row or column overlap or
    touch.  It holds with the proportional shift off, and with it on for
    every finite shift ratio up to 1. *)
Theorem scan_step_between_one_and_side this side :
  shift_ok this = true -> 0 <= side < 2 ^ 24 ->
  1 <= shift_step this side <= Z.max 1 side.
Proof.
  intros Hshift Hside. exact (shift_step_bounds this Hshift side Hside).
Qed.

Lemma scan_step_between_one_and_side_witness :
  1 <= shift_step template25_image30 25 <= Z.max 1 25.
Proof.
  apply (scan_step_between_one_and_side template25_image30 25).
  - vm_compute. reflexivity.
  - lia.
Defined.

(** [pow(1.2, 0)] is 1, so exponent 0 gives the template's own side. *)
Lemma scaled_side_zero side : 0 <= side < 2 ^ 24 -> scaled_side side 0 = side.
Proof.
  intros Hside. unfold scaled_side.
  assert (Hone : F32.of_double (F64.pow (F64.literal (12 # 10)) 0)
                 = IEEE.Finite (inject_Z 1)) by (vm_compute; reflexivity).
  rewrite Hone, F32_facts.of_Z_exact by lia.
  rewrite F32_facts.mul_exact by lia.
  rewrite Z.mul_1_r. apply IEEE_facts.to_int_Z. lia.
Qed.

Lemma sum_counts_app this l1 l2 :
  sum_counts this (l1 ++ l2) = sum_counts this l1 + sum_counts this l2.
Proof.
  induction l1 as [|sz l1 IH]; [reflexivity|].
  cbn [app]. unfold sum_counts in *. cbn [foldr]. rewrite IH. lia.
Qed.

Lemma sum_counts_between this (Hvalid : valid_config this) l :
  Forall (admissible this) l ->
  Z.of_nat (length l) <= sum_counts this l
  <= Z.of_nat (length l) * (imgWidth this * imgHeight this).
Proof.
  induction 1 as [|sz l Ha _ IH]; [cbn; lia|].
  pose proof (scale_count_bounds this Hvalid sz Ha).
  unfold sum_counts in *. cbn [foldr length]. lia.
Qed.

(** X15.  When exponent 0 is in range and the template meets [minSize]
    and fits in the scan area, the template's own size is a stored scale
    and the window of that size at the corner [(1, 1)] is in the buffer:
    a valid configuration of this kind never gives an empty window
    set. *)
Theorem template_sized_window_at_the_corner this fuel :
  valid_config this -> enough_fuel this fuel ->
  minScale this <= 0 <= maxScale this ->
  minSize this <= objWidth this <= imgWidth this - 1 ->
  minSize this <= objHeight this <= imgHeight this - 1 ->
  exists this' ws scs i,
    initWindowsAndScales this fuel = Returns this'
    /\ windows this' = Some ws /\ scales this' = Some scs
    /\ 0 <= i < numWindows this'
    /\ window_x ws i = 1 /\ window_y ws i = 1
    /\ window_w ws i = objWidth this /\ window_h ws i = objHeight this
    /\ 0 <= window_scale ws i < numScales this'
    /\ scs !! Z.to_nat (window_scale ws i)
       = Some (mkSize (objWidth this) (objHeight this)).
Proof.
  intros Hvalid Hfuel Hexp Hw Hh.
  destruct (valid_image_bounds this Hvalid) as [HW HH].
  pose proof Hvalid as (Hobjw & Hobjh & _).
  set (sz := mkSize (objWidth this) (objHeight this)).
  assert (Hcand : candidate this 0 = sz)
    by (unfold candidate; rewrite !scaled_side_zero by lia; reflexivity).
  assert (Ha : admissible this sz)
    by (apply admissible_within_limits; unfold within_limits, sz; cbn; lia).
  assert (Hin : elem_of sz (accepted_scales this)).
  { unfold accepted_scales, accepted_among. apply list_elem_of_filter.
    split; [exact Ha|]. rewrite <- Hcand.
    apply list_elem_of_fmap_2. unfold exponents. apply elem_of_seqZ. lia. }
  apply list_elem_of_lookup_1 in Hin as (j & Hj).
  pose proof (admissible_bounds this Hvalid sz Ha) as [Hbw Hbh].
  pose proof (admissible_steps this Hvalid sz Ha) as [Hsw Hsh].
  pose proof (axis_count_bounds _ _ _ Hbw Hsw) as Hcx.
  pose proof (axis_count_bounds _ _ _ Hbh Hsh) as Hcy.
  destruct (initWindowsAndScales_grid this fuel Hvalid Hfuel)
    as (this' & rest & Hret & Hws & _ & Hn & _ & Hns & Hsc & _).
  pose proof (grid_records_lookup this Hvalid j sz 0 0 Hj ltac:(lia) ltac:(lia))
    as Hlook.
  pose proof (scales_records_are_records this (accepted_scales this) 0) as Hrecs.
  fold (grid_records this) in Hrecs.
  assert (Htake : Forall (admissible this) (take j (accepted_scales this)))
    by (apply Forall_take, (accepted_among_admissible this (exponents this))).
  pose proof (sum_counts_bounds this Hvalid _ Htake) as Hsum.
  set (i := sum_counts this (take j (accepted_scales this))
            + 0 * axis_count (scanAreaW this) (width sz)
                    (shift_step this (width sz)) + 0) in *.
  assert (Hi0 : 0 <= i) by (unfold i; lia).
  destruct (window_record_fields _ i _ _ _ _ _ Hrecs Hi0 Hlook)
    as (Ex & Ey & Ew & Eh & Es).
  exists this', (concat (grid_records this)), (accepted_scales this ++ rest), i.
  rewrite Ex, Ey, Ew, Eh, Es, Hns, Nat2Z.id.
  pose proof (lookup_lt_Some _ _ _ Hlook) as Hlt.
  pose proof (lookup_lt_Some _ _ _ Hj) as Hjlt.
  rewrite lookup_app_l by exact Hjlt.
  repeat split; try assumption; try reflexivity; lia.
Qed.

Lemma template_sized_window_at_the_corner_witness :
  exists this' ws scs i,
    initWindowsAndScales template25_image30 30 = Returns this'
    /\ windows this' = Some ws /\ scales this' = Some scs
    /\ 0 <= i < numWindows this'
    /\ window_x ws i = 1 /\ window_y ws i = 1
    /\ window_w ws i = objWidth template25_image30
    /\ window_h ws i = objHeight template25_image30
    /\ 0 <= window_scale ws i < numScales this'
    /\ scs !! Z.to_nat (window_scale ws i)
       = Some (mkSize (objWidth template25_image30)
                 (objHeight template25_image30)).
Proof.
  apply (template_sized_window_at_the_corner template25_image30 30).
  - unfold valid_config. vm_compute. repeat split; congruence.
  - unfold enough_fuel. vm_compute. lia.
  - vm_compute. split; discriminate.
  - vm_compute. split; discriminate.
  - vm_compute. split; discriminate.
Defined.

(** X16.  For a valid configuration every stored scale has at least one
    window and at most [imgWidth * imgHeight]:
    [numScales <= numWindows <= numScales * imgWidth * imgHeight], and
    [numScales] is at most the number of exponents. *)
Theorem every_stored_scale_has_a_window this fuel :
  valid_config this -> enough_fuel this fuel ->
  exists this',
    initWindowsAndScales this fuel = Returns this'
    /\ 0 <= numScales this' <= maxScale this - minScale this + 1
    /\ numScales this' <= numWindows this'
    /\ numWindows this'
       <= numScales this' * (imgWidth this * imgHeight this).
Proof.
  intros Hvalid Hfuel.
  destruct (initWindowsAndScales_grid this fuel Hvalid Hfuel)
    as (this' & rest & Hret & _ & _ & _ & Hc & Hns & _).
  exists this'. split; [exact Hret|].
  pose proof (sum_counts_between this Hvalid _
                (accepted_among_admissible this (exponents this))) as Hb.
  fold (accepted_scales this) in Hb. fold (counted_windows this) in Hb.
  pose proof (accepted_among_length this (exponents this)) as Hlen.
  fold (accepted_scales this) in Hlen.
  unfold exponents in Hlen. rewrite length_seqZ in Hlen.
  destruct Hvalid as (_ & _ & _ & _ & _ & _ & Hms & _).
  rewrite Hns, Hc. lia.
Qed.

Lemma every_stored_scale_has_a_window_witness :
  exists this',
    initWindowsAndScales template25_image30 30 = Returns this'
    /\ 0 <= numScales this'
       <= maxScale template25_image30 - minScale template25_image30 + 1
    /\ numScales this' <= numWindows this'
    /\ numWindows this'
       <= numScales this'
          * (imgWidth template25_image30 * imgHeight template25_image30).
Proof.
  apply (every_stored_scale_has_a_window template25_image30 30).
  - unfold valid_config. vm_compute. repeat split; congruence.
  - unfold enough_fuel. vm_compute. lia.
Defined.

(** ** Every index is a scale, a row and a column *)

Lemma grid_index_decompose this (Hvalid : valid_config this) : forall l pre,
  accepted_scales this = pre ++ l ->
  forall k, 0 <= k < sum_counts this l ->
  exists (j : nat) sz r c,
    accepted_scales this !! j = Some sz
    /\ 0 <= r < axis_count (scanAreaH this) (height sz)
                  (shift_step this (height sz))
    /\ 0 <= c < axis_count (scanAreaW this) (width sz)
                  (shift_step this (width sz))
    /\ sum_counts this pre + k
       = sum_counts this (take j (accepted_scales this))
         + r * axis_count (scanAreaW this) (width sz)
                 (shift_step this (width sz)) + c.
Proof.
  induction l as [|sz l IH]; intros pre Hacc k Hk.
  - cbn in Hk. lia.
  - assert (Ha : admissible this sz).
    { pose proof (accepted_among_admissible this (exponents this)) as Hall.
      fold (accepted_scales this) in Hall. rewrite Hacc in Hall.
      apply Forall_app in Hall as [_ Hall].
      inversion Hall; assumption. }
    pose proof (admissible_bounds this Hvalid sz Ha) as [Hbw Hbh].
    pose proof (admissible_steps this Hvalid sz Ha) as [Hsw Hsh].
    pose proof (axis_count_bounds _ _ _ Hbw Hsw) as Hcx.
    pose proof (axis_count_bounds _ _ _ Hbh Hsh) as Hcy.
    set (cx := axis_count (scanAreaW this) (width sz)
                 (shift_step this (width sz))) in *.
    set (cy := axis_count (scanAreaH this) (height sz)
                 (shift_step this (height sz))) in *.
    assert (Hsc : scale_count this sz = cx * cy) by reflexivity.
    unfold sum_counts in Hk. cbn [foldr] in Hk. fold (sum_counts this l) in Hk.
    destruct (Z.lt_ge_cases k (cx * cy)) as [Hlt|Hge].
    + exists (length pre), sz, (k / cx), (k mod cx).
      split; [rewrite Hacc; apply list_lookup_middle; reflexivity|].
      fold cx cy.
      split; [split; [apply Z.div_pos; lia
                     | apply Z.div_lt_upper_bound; lia]|].
      split; [apply Z.mod_pos_bound; lia|].
      rewrite Hacc, take_app_length.
      pose proof (Z.div_mod k cx ltac:(lia)). lia.
    + destruct (IH (pre ++ [sz]) ltac:(rewrite <- app_assoc; exact Hacc)
                  (k - cx * cy) ltac:(lia))
        as (j & sz' & r & c & Hj & Hr & Hc & Heq).
      exists j, sz', r, c. repeat split; try tauto.
      rewrite sum_counts_app in Heq.
      unfold sum_counts at 2 in Heq. cbn [foldr] in Heq. lia.
Qed.

(** X17.  No window is generated twice: in the buffer of a valid
    configuration, two indices whose windows have the same corner
    [(x, y)] and the same scale index are the same index. *)
Theorem no_window_is_generated_twice this fuel :
  valid_config this -> enough_fuel this fuel ->
  exists this' ws,
    initWindowsAndScales this fuel = Returns this'
    /\ windows this' = Some ws
    /\ forall i k,
         0 <= i < numWindows this' -> 0 <= k < numWindows this' ->
         window_x ws i = window_x ws k ->
         window_y ws i = window_y ws k ->
         window_scale ws i = window_scale ws k ->
         i = k.
Proof.
  intros Hvalid Hfuel.
  destruct (initWindowsAndScales_grid this fuel Hvalid Hfuel)
    as (this' & rest & Hret & Hws & _ & Hn & Hc & _).
  exists this', (concat (grid_records this)).
  split; [exact Hret|]. split; [exact Hws|].
  pose proof (scales_records_are_records this (accepted_scales this) 0) as Hrecs.
  fold (grid_records this) in Hrecs.
  assert (Hread : forall i, 0 <= i < numWindows this' ->
            exists (j : nat) sz r c,
              accepted_scales this !! j = Some sz
              /\ 0 <= r /\ 0 <= c
              /\ 1 <= shift_step this (width sz)
              /\ 1 <= shift_step this (height sz)
              /\ i = sum_counts this (take j (accepted_scales this))
                     + r * axis_count (scanAreaW this) (width sz)
                             (shift_step this (width sz)) + c
              /\ window_x (concat (grid_records this)) i
                 = 1 + c * shift_step this (width sz)
              /\ window_y (concat (grid_records this)) i
                 = 1 + r * shift_step this (height sz)
              /\ window_scale (concat (grid_records this)) i = Z.of_nat j).
  { intros i Hi.
    destruct (grid_index_decompose this Hvalid (accepted_scales this) []
                eq_refl i ltac:(fold (counted_windows this); lia))
      as (j & sz & r & c & Hj & Hr & Hcc & Heq).
    change (sum_counts this [] + i) with (0 + i) in Heq.
    rewrite Z.add_0_l in Heq.
    pose proof (grid_records_lookup this Hvalid j sz r c Hj Hr Hcc) as Hlook.
    rewrite <- Heq in Hlook.
    destruct (window_record_fields _ i _ _ _ _ _ Hrecs ltac:(lia) Hlook)
      as (Ex & Ey & _ & _ & Es).
    assert (Ha : admissible this sz).
    { pose proof (accepted_among_admissible this (exponents this)) as Hall.
      rewrite Forall_forall in Hall. apply Hall.
      apply (list_elem_of_lookup_2 _ j). exact Hj. }
    pose proof (admissible_steps this Hvalid sz Ha) as [Hsw Hsh].
    exists j, sz, r, c. repeat split; try assumption; lia. }
  intros i k Hi Hk Hx Hy Hs.
  destruct (Hread i Hi)
    as (j1 & sz1 & r1 & c1 & Hj1 & Hr1 & Hc1 & Hsw1 & Hsh1 & Ei & Ex1 & Ey1 & Es1).
  destruct (Hread k Hk)
    as (j2 & sz2 & r2 & c2 & Hj2 & Hr2 & Hc2 & Hsw2 & Hsh2 & Ek & Ex2 & Ey2 & Es2).
  rewrite Es1, Es2 in Hs. apply Nat2Z.inj in Hs. subst j2.
  rewrite Hj1 in Hj2. injection Hj2 as <-.
  rewrite Ex1, Ex2 in Hx. rewrite Ey1, Ey2 in Hy.
  assert (c1 = c2) by nia. assert (r1 = r2) by nia.
  subst. reflexivity.
Qed.

Lemma no_window_is_generated_twice_witness :
  exists this' ws,
    initWindowsAndScales template25_image30 30 = Returns this'
    /\ windows this' = Some ws
    /\ forall i k,
         0 <= i < numWindows this' -> 0 <= k < numWindows this' ->
         window_x ws i = window_x ws k ->
         window_y ws i = window_y ws k ->
         window_scale ws i = window_scale ws k ->
         i = k.
Proof.
  apply (no_window_is_generated_twice template25_image30 30).
  - unfold valid_config. vm_compute. repeat split; congruence.
  - unfold enough_fuel. vm_compute. lia.
Defined.
